(** * Metarunx Discord bridge: a shallow embedding of [main.py]

    The development follows the source file top to bottom:

    - Python values: strings as lists of code points, the values produced
      by [json.loads], exceptions as an error monad;
    - the effects of the bot (HTTP calls, Discord sends, the Jishaku
      invocation) as a trace of events produced by a small state and
      exception monad, the outside world being a record of oracles;
    - [get_user_info], [call_ai_api], [get_audio_from_text] and
      [on_message], each translated statement by statement;
    - the properties of the specification, proved over these definitions.

    Logging calls have no effect on control flow or on what the bot sends
    and are left out of the embedding. *)

From Stdlib Require Import ZArith NArith List Lia Ascii String Bool Decimal DecimalString DecimalN.
From stdpp Require Import gmap list.
Import ListNotations.

Set Warnings "-register-all".
Local Open Scope Z_scope.

(* ===================================================================== *)
(** * Python strings *)
(* ===================================================================== *)

(** A Python [str] is a sequence of Unicode code points; [len] counts code
    points. *)
Definition str : Type := list N.

(** An ASCII literal of the source. *)
Definition lit (s : string) : str := map N_of_ascii (list_ascii_of_string s).
Arguments lit : simpl never.

(** [len(x)] as a Python integer. *)
Definition len {A : Type} (l : list A) : Z := Z.of_nat (length l).

(** [str.isspace] for one code point: Python's Unicode whitespace. *)
Definition isspace (c : N) : bool :=
  ((9 <=? c) && (c <=? 13) || (28 <=? c) && (c <=? 32) || (c =? 133) || (c =? 160)
   || (c =? 5760) || (8192 <=? c) && (c <=? 8202) || (c =? 8232) || (c =? 8233)
   || (c =? 8239) || (c =? 8287) || (c =? 12288))%N.

(** The line boundaries of [str.splitlines]. *)
Definition is_linebreak (c : N) : bool :=
  ((10 <=? c) && (c <=? 13) || (28 <=? c) && (c <=? 30) || (c =? 133)
   || (c =? 8232) || (c =? 8233))%N.

Fixpoint str_lstrip (s : str) : str :=
  match s with
  | [] => []
  | c :: rest => if isspace c then str_lstrip rest else s
  end.

Definition str_rstrip (s : str) : str := rev (str_lstrip (rev s)).

(** [s.strip()] *)
Definition str_strip (s : str) : str := str_rstrip (str_lstrip s).

Definition str_eqb (a b : str) : bool := bool_decide (a = b).

(** [s.startswith(p)] *)
Fixpoint str_startswith (p s : str) : bool :=
  match p, s with
  | [], _ => true
  | _ :: _, [] => false
  | a :: p', b :: s' => (a =? b)%N && str_startswith p' s'
  end.

(** [p in s] for two strings: [p] occurs in [s] as a substring. *)
Fixpoint str_contains (p s : str) : bool :=
  match s with
  | [] => match p with [] => true | _ => false end
  | _ :: rest => str_startswith p s || str_contains p rest
  end.

(** [sep.join(parts)] *)
Fixpoint str_join (sep : str) (parts : list str) : str :=
  match parts with
  | [] => []
  | [p] => p
  | p :: rest => p ++ sep ++ str_join sep rest
  end.

(** [s.splitlines()]: [cur] is the current line, reversed.  A carriage
    return followed by a line feed is one boundary; a boundary at the very
    end opens no further line. *)
Fixpoint splitlines_from (cur : str) (s : str) : list str :=
  match s with
  | [] => match cur with [] => [] | _ => [rev cur] end
  | c :: rest =>
      if is_linebreak c then
        rev cur ::
          match rest with
          | c' :: rest' =>
              if ((c =? 13) && (c' =? 10))%N then splitlines_from [] rest'
              else splitlines_from [] rest
          | [] => splitlines_from [] rest
          end
      else splitlines_from (c :: cur) rest
  end.

Definition str_splitlines (s : str) : list str := splitlines_from [] s.

(** [s.replace(old, new)] for a non-empty [old]: occurrences are replaced
    from the left and do not overlap; [skip] counts the characters of a
    replaced occurrence still to be passed over. *)
Fixpoint replace_from (old new : str) (skip : nat) (s : str) : str :=
  match s with
  | [] => []
  | c :: rest =>
      match skip with
      | S k => replace_from old new k rest
      | O =>
          if str_startswith old s
          then new ++ replace_from old new (Nat.pred (length old)) rest
          else c :: replace_from old new 0 rest
      end
  end.

Definition str_replace (old new s : str) : str := replace_from old new 0 s.

(** [s.replace(old, new, 1)] for a non-empty [old]: the first occurrence
    only. *)
Fixpoint str_replace1 (old new s : str) : str :=
  match s with
  | [] => []
  | c :: rest =>
      if str_startswith old s then new ++ drop (length old) s
      else c :: str_replace1 old new rest
  end.

(** Slices [s[i:j]] with Python's treatment of negative and out-of-range
    bounds; [None] is an omitted bound. *)
Definition clamp_index (n i : Z) : Z :=
  if i <? 0 then Z.max 0 (i + n) else Z.min i n.

Definition py_slice {A : Type} (l : list A) (i j : option Z) : list A :=
  let n := len l in
  let a := match i with Some i => clamp_index n i | None => 0 end in
  let b := match j with Some j => clamp_index n j | None => n end in
  take (Z.to_nat (b - a)) (drop (Z.to_nat a) l).

(** [range(start, stop, step)] for a positive step. *)
Definition py_range (start stop step : Z) : list Z :=
  map (fun k => start + Z.of_nat k * step)
      (seq 0 (Z.to_nat ((stop - start + step - 1) / step))).

(** [str(n)] for a non-negative integer. *)
Definition str_of_N (n : N) : str := lit (NilEmpty.string_of_uint (N.to_uint n)).

(* ===================================================================== *)
(** * Exceptions and results *)
(* ===================================================================== *)

(** The subclasses of [Exception] that the source names or that its
    operations raise. *)
Inductive exn : Type :=
| JSONDecodeError
| ClientError          (* aiohttp.ClientError *)
| TimeoutError         (* asyncio.TimeoutError *)
| TypeError
| AttributeError
| KeyError
| IndexError
| UnicodeEncodeError
| Forbidden            (* discord.Forbidden *)
| NotFound             (* discord.NotFound *)
| HTTPException        (* discord.HTTPException, neither of the two above *)
| CommandError         (* commands.CommandError *)
| OtherException.

(** [discord.Forbidden] and [discord.NotFound] derive from
    [discord.HTTPException]. *)
Definition is_HTTPException (e : exn) : bool :=
  match e with
  | Forbidden | NotFound | HTTPException => true
  | _ => false
  end.

Inductive result (A : Type) : Type :=
| Ok (a : A)
| Raise (e : exn).
Arguments Ok {A} a.
Arguments Raise {A} e.

(** [result] is a monad; the sequencing notation [x ← m; k] is stdpp's. *)
#[global] Instance result_ret : MRet result := fun A a => Ok a.
#[global] Instance result_bind : MBind result := fun A B k m =>
  match m with
  | Ok a => k a
  | Raise e => Raise e
  end.

(* ===================================================================== *)
(** * The values of [json.loads] *)
(* ===================================================================== *)

(** A float is kept by the one thing the code can observe of it, whether
    it is non-zero (its truth value). *)
Inductive json : Type :=
| JNull
| JBool (b : bool)
| JInt (z : Z)
| JFloat (nonzero : bool)
| JStr (s : str)
| JList (l : list json)
| JDict (d : gmap str json).

Abbreviation dict := (gmap str json).

(** Truth value of a Python object. *)
Definition py_truthy (v : json) : bool :=
  match v with
  | JNull => false
  | JBool b => b
  | JInt z => negb (z =? 0)
  | JFloat nz => nz
  | JStr s => negb (bool_decide (s = []))
  | JList l => match l with [] => false | _ => true end
  | JDict d => negb (Nat.eqb (size d) 0)
  end.

Definition is_JStr (v : json) : bool :=
  match v with JStr _ => true | _ => false end.

(** [key in v] for a string [key]. *)
Definition py_contains (key : str) (v : json) : result bool :=
  match v with
  | JDict d => Ok (bool_decide (is_Some (d !! key)))
  | JList l => Ok (existsb (fun x => match x with JStr s => str_eqb s key | _ => false end) l)
  | JStr s => Ok (str_contains key s)
  | _ => Raise TypeError
  end.

(** [v[key]] for a string [key]. *)
Definition py_getitem (v : json) (key : str) : result json :=
  match v with
  | JDict d => match d !! key with Some x => Ok x | None => Raise KeyError end
  | _ => Raise TypeError
  end.

(** [v[0]].  The keys of a dict that comes from JSON are strings, so the
    integer key is never found. *)
Definition py_first (v : json) : result json :=
  match v with
  | JList l => match l with x :: _ => Ok x | [] => Raise IndexError end
  | JStr s => match s with c :: _ => Ok (JStr [c]) | [] => Raise IndexError end
  | JDict _ => Raise KeyError
  | _ => Raise TypeError
  end.

(** [len(v)] *)
Definition py_len (v : json) : result Z :=
  match v with
  | JDict d => Ok (Z.of_nat (size d))
  | JList l => Ok (len l)
  | JStr s => Ok (len s)
  | _ => Raise TypeError
  end.

(** [v.get(key, default)] and [v.get(key)]: only a dict has the method. *)
Definition py_get (v : json) (key : str) (default : json) : result json :=
  match v with
  | JDict d => Ok (match d !! key with Some x => x | None => default end)
  | _ => Raise AttributeError
  end.

(** [isinstance(d[key], str)] guarded by [key in d], as the validation
    writes it for each required key. *)
Definition has_str (d : dict) (key : str) : bool :=
  match d !! key with
  | Some (JStr _) => true
  | _ => false
  end.

(** The functions of the Python library that the code calls and whose
    tables are not part of this repository. *)
Record pylib : Type := {
  (** [json.loads] on a string; [Raise JSONDecodeError] on malformed text. *)
  json_loads : str -> result json;
  (** [json.dumps(v, indent=2)] *)
  json_dumps_indent2 : json -> str;
  (** [str.lower] *)
  str_lower : str -> str
}.

(** [json.loads(v)] on an arbitrary value: anything but a string is a
    [TypeError]. *)
Definition py_json_loads (L : pylib) (v : json) : result json :=
  match v with
  | JStr s => json_loads L s
  | _ => Raise TypeError
  end.

(* ===================================================================== *)
(** * [urllib.parse.quote(text, safe='')] *)
(* ===================================================================== *)

(** UTF-8 encoding of one code point; surrogates cannot be encoded. *)
Definition utf8_encode_char (c : N) : result (list N) :=
  (if c <? 128 then Ok [c]
   else if c <? 2048 then Ok [192 + c / 64; 128 + c mod 64]
   else if (55296 <=? c) && (c <=? 57343) then Raise UnicodeEncodeError
   else if c <? 65536 then Ok [224 + c / 4096; 128 + (c / 64) mod 64; 128 + c mod 64]
   else if c <? 1114112 then
     Ok [240 + c / 262144; 128 + (c / 4096) mod 64; 128 + (c / 64) mod 64; 128 + c mod 64]
   else Raise UnicodeEncodeError)%N.

Fixpoint utf8_encode (s : str) : result (list N) :=
  match s with
  | [] => Ok []
  | c :: rest =>
      b ← utf8_encode_char c;
      bs ← utf8_encode rest;
      Ok (b ++ bs)
  end.

(** The bytes [quote] never escapes: letters, digits and [_.-~]. *)
Definition always_safe (b : N) : bool :=
  ((65 <=? b) && (b <=? 90) || (97 <=? b) && (b <=? 122) || (48 <=? b) && (b <=? 57)
   || (b =? 95) || (b =? 46) || (b =? 45) || (b =? 126))%N.

Definition hex_digit (n : N) : N :=
  (if n <? 10 then 48 + n else 55 + n)%N.

Definition quote_byte (b : N) : str :=
  if always_safe b then [b]
  else [37%N; hex_digit (b / 16)%N; hex_digit (b mod 16)%N].

Definition quote (text : str) : result str :=
  bs ← utf8_encode text; Ok (concat (map quote_byte bs)).

(* ===================================================================== *)
(** * Discord objects *)
(* ===================================================================== *)

Definition bytes : Type := list Byte.byte.

Record Role : Type := {
  role_id : N;
  role_name : str;
  role_position : Z
}.

(** A permission set, as [iter(perms)] yields it: flag names with their
    values. *)
Definition Permissions : Type := list (str * bool).

Record Member : Type := {
  member_id : N;
  member_str : str;                 (* str(member) *)
  nick : option str;
  global_name : option str;
  roles : list Role;
  top_role : Role;
  guild_permissions : Permissions
}.

Record Guild : Type := {
  guild_id : N;
  owner_id : N;
  me : Member                       (* guild.me, the bot's own member *)
}.

(** The author of a message: a [discord.Member] with its [guild]
    attribute, or a plain [discord.User]. *)
Inductive Author : Type :=
| AMember (m : Member) (guild : option Guild) (is_bot : bool)
| AUser (id : N) (is_bot : bool).

Definition author_id (a : Author) : N :=
  match a with
  | AMember m _ _ => member_id m
  | AUser id _ => id
  end.

Definition author_bot (a : Author) : bool :=
  match a with
  | AMember _ _ b => b
  | AUser _ b => b
  end.

(** A channel: a [discord.abc.GuildChannel] with its [permissions_for]
    method, or any other channel (a direct message, a group). *)
Inductive Channel : Type :=
| GuildChannel (permissions_for : Member -> Permissions)
| OtherChannel.

Record Message : Type := {
  message_id : N;
  author : Author;
  content : str;
  channel : Channel;
  guild : option Guild;             (* message.guild *)
  mentions : list N;                (* the ids of message.mentions *)
  mentions_bot : bool               (* bot.user.mentioned_in(message) *)
}.

(* ===================================================================== *)
(** * Effects *)
(* ===================================================================== *)

Record http_response : Type := {
  status : Z;
  header_content_type : option str; (* response.headers.get('Content-Type') *)
  body_text : result str;           (* await response.text() *)
  body_bytes : result bytes         (* await response.read() *)
}.

(** What the bot does to the outside, in the order it does it. *)
Inductive event : Type :=
| EPost (url : str) (payload : json)          (* session.post *)
| EGet (url : str)                            (* session.get *)
| EReply (content : str) (mention_author : bool) (delete_after : option Z)
                                              (* message.reply *)
| ESend (content : str)                       (* message.channel.send *)
| ESendFile (data : bytes) (filename : str)   (* message.channel.send(file=...) *)
| ETyping                                     (* message.channel.typing() *)
| ESleep                                      (* asyncio.sleep(0.5) *)
| EProcessCommands                            (* bot.process_commands *)
| EFetchMember (guild user : N)               (* guild.fetch_member *)
| EInvoke (argument : str).                   (* ctx.invoke(py_command, ...) *)

Definition trace : Type := list event.

(** The outside world: what the network and Discord answer, given what
    has happened so far.  [discord_fault] is the exception, if any, that a
    call to Discord or to the Jishaku command raises. *)
Record world : Type := {
  bot_user_id : N;
  env_AI_TRIGGER_PREFIX : option str;
  session_post : trace -> str -> json -> result http_response;
  session_get : trace -> str -> result http_response;
  discord_fault : trace -> event -> option exn;
  fetch_member : trace -> N -> N -> result Author;
  jishaku_cog : bool;               (* bot.get_cog("Jishaku") is found *)
  jsk_py_command : bool;            (* bot.get_command("jsk py") is a Command *)
  get_context_ok : bool;            (* bot.get_context(message) is truthy *)
  exn_str : exn -> str              (* str(exec_err) *)
}.

(** Computations that extend the trace and may raise. *)
Definition IO (A : Type) : Type := trace -> result A * trace.

#[global] Instance IO_ret : MRet IO := fun A a tr => (Ok a, tr).
#[global] Instance IO_bind : MBind IO := fun A B k m tr =>
  match m tr with
  | (Ok a, tr') => k a tr'
  | (Raise e, tr') => (Raise e, tr')
  end.

Definition lift {A : Type} (r : result A) : IO A := fun tr => (r, tr).

Definition raise {A : Type} (e : exn) : IO A := fun tr => (Raise e, tr).

(** [try: m  except Exception as e: h e]; a handler re-raises what its
    [except] clauses do not name. *)
Definition try_except {A : Type} (m : IO A) (h : exn -> IO A) : IO A :=
  fun tr =>
    match m tr with
    | (Ok a, tr') => (Ok a, tr')
    | (Raise e, tr') => h e tr'
    end.

(** [try: m  except json.JSONDecodeError: h], for code without effects. *)
Definition except_JSONDecodeError {A : Type} (m : result A) (h : result A) : result A :=
  match m with
  | Raise JSONDecodeError => h
  | r => r
  end.

Definition sleep : IO unit := fun tr => (Ok tt, tr ++ [ESleep]).

Section Bot.

Variable L : pylib.
Variable W : world.

(** Lines 69-154: the text of the system prompt.  It is a constant of the
    source; nothing below depends on what it says. *)
Variable SYSTEM_PROMPT_TEMPLATE : str.

(** A call to Discord or to the Jishaku command. *)
Definition emit (ev : event) : IO unit :=
  fun tr =>
    (match discord_fault W tr ev with Some e => Raise e | None => Ok tt end,
     tr ++ [ev]).

Definition http_post (url : str) (payload : json) : IO http_response :=
  fun tr => (session_post W tr url payload, tr ++ [EPost url payload]).

Definition http_get (url : str) : IO http_response :=
  fun tr => (session_get W tr url, tr ++ [EGet url]).

Definition guild_fetch_member (g : Guild) (user : N) : IO Author :=
  fun tr => (fetch_member W tr (guild_id g) user,
             tr ++ [EFetchMember (guild_id g) user]).

(* ===================================================================== *)
(** * Configuration (lines 21-24) *)
(* ===================================================================== *)

Definition AI_TEXT_API_URL : str := lit "https://text.pollinations.ai/openai".
Definition AI_AUDIO_API_URL_TEMPLATE : str :=
  lit "https://text.pollinations.ai/{prompt}?model=openai-audio&voice=nova".
Definition AI_MODEL : str := lit "openai".

(* ===================================================================== *)
(** * [get_user_info] (lines 159-207) *)
(* ===================================================================== *)

(** Line 181: [role.position if role and role.id != guild.id else -1]. *)
Definition get_role_pos (guild : Guild) (role : option Role) : Z :=
  match role with
  | Some r => if negb (role_id r =? guild_id guild)%N then role_position r else -1
  | None => -1
  end.

(** [[perm for perm, value in iter(perms) if value]] *)
Definition granted (perms : Permissions) : json :=
  JList (map (fun pv => JStr (fst pv)) (filter (fun pv => snd pv = true) perms)).

Definition json_opt_str (o : option str) : json :=
  match o with Some s => JStr s | None => JNull end.

Definition is_everyone (guild : Guild) (r : Role) : bool :=
  (role_id r =? guild_id guild)%N.

Definition get_user_info (member : Author) (channel : Channel) : dict :=
  match member with
  | AMember m (Some guild) _ =>
      match channel with
      | GuildChannel permissions_for =>
          let bot_member := me guild in
          let perms_in_channel := permissions_for m in
          let bot_perms_in_channel := permissions_for bot_member in
          let perms_in_guild := guild_permissions m in
          let bot_perms_in_guild := guild_permissions bot_member in
          let other_roles := filter (fun r => is_everyone guild r = false) (roles m) in
          list_to_map
            [ (lit "userId", JStr (str_of_N (member_id m)));
              (lit "serverId", JStr (str_of_N (guild_id guild)));
              (lit "userName", JStr (member_str m));
              (lit "userNick", json_opt_str (nick m));
              (lit "userGlobalName", json_opt_str (global_name m));
              (lit "userRoles", JList (map (fun r => JStr (role_name r)) other_roles));
              (lit "userRoleIds",
               JList (map (fun r => JStr (str_of_N (role_id r))) other_roles));
              (lit "userTopRoleId",
               JStr (if negb (is_everyone guild (top_role m))
                     then str_of_N (role_id (top_role m))
                     else str_of_N (guild_id guild)));
              (lit "userTopRoleName",
               JStr (if negb (is_everyone guild (top_role m))
                     then role_name (top_role m)
                     else lit "@everyone"));
              (lit "userTopRolePosition", JInt (get_role_pos guild (Some (top_role m))));
              (lit "userChannelPermissions", granted perms_in_channel);
              (lit "userGuildPermissions", granted perms_in_guild);
              (lit "isOwner", JBool (member_id m =? owner_id guild)%N);
              (lit "botUserId", JStr (str_of_N (member_id bot_member)));
              (lit "botTopRoleId",
               JStr (if negb (is_everyone guild (top_role bot_member))
                     then str_of_N (role_id (top_role bot_member))
                     else str_of_N (guild_id guild)));
              (lit "botTopRolePosition",
               JInt (get_role_pos guild (Some (top_role bot_member))));
              (lit "botGuildPermissions", granted bot_perms_in_guild);
              (lit "botChannelPermissions", granted bot_perms_in_channel) ]
      | OtherChannel => ∅
      end
  | _ => ∅
  end.

(** [not d] for a dict. *)
Definition dict_falsy (d : dict) : bool := Nat.eqb (size d) 0.

(* ===================================================================== *)
(** * [call_ai_api] (lines 209-305) *)
(* ===================================================================== *)

Definition response_tags : list str :=
  [lit "text"; lit "code"; lit "audio"; lit "rejection"].

Definition tag_of (d : dict) : str :=
  match d !! lit "type" with
  | Some (JStr t) => t
  | _ => []
  end.

(** Line 263: ['code' not in d or not isinstance(d['code'], str) or not
    d['code'].strip()]. *)
Definition code_unusable (d : dict) : bool :=
  match d !! lit "code" with
  | Some (JStr c) => bool_decide (str_strip c = [])
  | _ => true
  end.

(** Lines 253-280, the body of the inner [try]. *)
Definition validate_content (message_content_str : json) : result (option dict) :=
  parsed_content ← py_json_loads L message_content_str;
  match parsed_content with
  | JDict d =>
      if has_str d (lit "response") && has_str d (lit "feedback")
         && has_str d (lit "type")
         && bool_decide (tag_of d ∈ response_tags)
      then
        if str_eqb (tag_of d) (lit "code") then
          if code_unusable d then Ok None else Ok (Some d)
        else if bool_decide (is_Some (d !! lit "code")) then
          Ok (Some (delete (lit "code") d))
        else Ok (Some d)
      else Ok None
  | _ => Ok None
  end.

(** Lines 243-289, the body of the outer [try]. *)
Definition unwrap_completion (response_text : str) : result (option dict) :=
  ai_result_wrapper ← json_loads L response_text;
  has_choices ← py_contains (lit "choices") ai_result_wrapper;
  nonempty ←
    (if has_choices : bool then
       choices ← py_getitem ai_result_wrapper (lit "choices");
       n ← py_len choices;
       Ok (0 <? n)
     else Ok false);
  if nonempty : bool then
    choices ← py_getitem ai_result_wrapper (lit "choices");
    choice ← py_first choices;
    message_obj ← py_get choice (lit "message") (JDict ∅);
    message_content_str ← py_get message_obj (lit "content") JNull;
    choices' ← py_getitem ai_result_wrapper (lit "choices");
    choice' ← py_first choices';
    finish_reason ← py_get choice' (lit "finish_reason") JNull;
    if py_truthy message_content_str then
      except_JSONDecodeError (validate_content message_content_str) (Ok None)
    else Ok None
  else Ok None.

(** Lines 219-227. *)
Definition completion_payload (final_system_prompt user_message : str) : json :=
  JDict (list_to_map
    [ (lit "model", JStr AI_MODEL);
      (lit "messages",
       JList [ JDict (list_to_map [ (lit "role", JStr (lit "system"));
                                    (lit "content", JStr final_system_prompt) ]);
               JDict (list_to_map [ (lit "role", JStr (lit "user"));
                                    (lit "content", JStr user_message) ]) ]);
      (lit "private", JBool true);
      (lit "response_format",
       JDict (list_to_map [ (lit "type", JStr (lit "json_object")) ])) ]).

Definition call_ai_api (user_message : str) (user_info : dict) : IO (option dict) :=
  let user_info_json_string := json_dumps_indent2 L (JDict user_info) in
  let final_system_prompt :=
    str_replace (lit "{{userMessage}}") user_message
      (str_replace (lit "{{userInfoJson}}") user_info_json_string
         SYSTEM_PROMPT_TEMPLATE) in
  let payload := completion_payload final_system_prompt user_message in
  try_except
    (response ← http_post AI_TEXT_API_URL payload;
     response_text ← lift (body_text response);
     if status response =? 200 then
       lift (except_JSONDecodeError (unwrap_completion response_text) (Ok None))
     else mret None)
    (fun e =>
       match e with
       | ClientError => mret None
       | TimeoutError => mret None
       | _ => mret None
       end).

(* ===================================================================== *)
(** * [get_audio_from_text] (lines 308-361) *)
(* ===================================================================== *)

(** [AI_AUDIO_API_URL_TEMPLATE.format(prompt=p)]: the template has the one
    replacement field. *)
Definition format_audio_url (p : str) : str :=
  str_replace (lit "{prompt}") p AI_AUDIO_API_URL_TEMPLATE.

Definition max_url_len : Z := 2000.

(** Lines 315-326: the URL to fetch, or [None] where the function gives
    up (line 323). *)
Definition audio_url (text : str) : result (option str) :=
  encoded_prompt ← quote text;
  let url := format_audio_url encoded_prompt in
  if len url >? max_url_len then
    let allowed_prompt_len :=
      max_url_len - (len AI_AUDIO_API_URL_TEMPLATE - len (lit "{prompt}")) - 50 in
    if allowed_prompt_len <=? 0 then Ok None
    else
      let truncated_text := py_slice text None (Some allowed_prompt_len) ++ lit "..." in
      encoded_prompt' ← quote truncated_text;
      Ok (Some (format_audio_url encoded_prompt'))
  else Ok (Some url).

Definition get_audio_from_text (text : str) : IO (option bytes) :=
  if bool_decide (text = []) then mret None
  else
    try_except
      (target ← lift (audio_url text);
       match target with
       | None => mret None
       | Some url =>
           response ← http_get url;
           if status response =? 200 then
             let content_type' :=
               str_lower L (default [] (header_content_type response)) in
             if str_contains (lit "audio") content_type' then
               audio_bytes ← lift (body_bytes response);
               match audio_bytes with
               | _ :: _ => mret (Some audio_bytes)
               | [] => mret None
               end
             else
               error_detail ← lift (body_text response);
               mret None
           else
             error_text ← lift (body_text response);
             mret None
       end)
      (fun e =>
         match e with
         | ClientError => mret None
         | TimeoutError => mret None
         | _ => mret None
         end).

(* ===================================================================== *)
(** * [on_message] (lines 414-601) *)
(* ===================================================================== *)

Definition reply (content : str) : IO unit := emit (EReply content false None).

(** Lines 506-509: the loop over [enumerate(parts)]. *)
Fixpoint reply_parts (i : Z) (parts : list str) : IO unit :=
  match parts with
  | [] => mret tt
  | part :: rest =>
      _ ← emit (EReply part (if i >? 0 then false else true) None);
      _ ← sleep;
      reply_parts (i + 1) rest
  end.

(** Line 506: [[response_text[i:i+1990] for i in range(0, len(response_text), 1990)]]. *)
Definition split_parts (response_text : str) : list str :=
  map (fun i => py_slice response_text (Some i) (Some (i + 1990)))
      (py_range 0 (len response_text) 1990).

(** Lines 502-511. *)
Definition send_text (response_text : str) : IO unit :=
  if len response_text >? 2000 then reply_parts 0 (split_parts response_text)
  else reply response_text.

(** Lines 513-524. *)
Definition send_audio (response_text : str) : IO unit :=
  _ ← reply response_text;
  audio_data ← get_audio_from_text response_text;
  match audio_data with
  | Some ((_ :: _) as data) => emit (ESendFile data (lit "metarunx_response.mp3"))
  | _ => emit (ESend (lit "_(Could not generate or retrieve the audio version.)_"))
  end.

Definition fence : str := lit "```".

Definition first_line (lines : list str) : result str :=
  match lines with
  | l :: _ => Ok l
  | [] => Raise IndexError
  end.

Definition last_line (lines : list str) : result str :=
  match last lines with
  | Some l => Ok l
  | None => Raise IndexError
  end.

(** Lines 533-536, the code cleanup. *)
Definition clean_code (code_to_execute : str) : result str :=
  code ←
    (if str_startswith fence (str_strip code_to_execute) then
       let lines := str_splitlines (str_strip code_to_execute) in
       l0 ← first_line lines;
       kept ←
         (if str_startswith fence l0 then
            ll ← last_line lines;
            if str_eqb ll fence then Ok (py_slice lines (Some 1) (Some (-1)))
            else Ok (py_slice lines (Some 1) None)
          else Ok lines);
       Ok (str_join [10%N] kept)
     else Ok code_to_execute);
  Ok (str_strip code).

(** Lines 545-580. *)
Definition execute_code (code_to_execute : str) : IO unit :=
  if negb (jishaku_cog W) then
    emit (ESend (lit "_(CRITICAL ERROR: Code execution module is unavailable.)_"))
  else if negb (jsk_py_command W) then
    emit (ESend (lit "_(Error: Cannot locate the Python execution command.)_"))
  else if negb (get_context_ok W) then
    emit (ESend (lit "_(Error: Could not create execution context.)_"))
  else
    try_except (emit (EInvoke code_to_execute))
      (fun e =>
         match e with
         | CommandError => mret tt
         | exec_err =>
             emit (ESend (lit "_(Error during code execution setup: "
                          ++ exn_str W exec_err ++ lit ")_"))
         end).

(** Lines 526-580. *)
Definition run_code (response_text : str) (code_to_execute : option str) : IO unit :=
  match code_to_execute with
  | Some ((_ :: _) as code) =>
      cleaned ← lift (clean_code code);
      match cleaned with
      | [] =>
          reply (response_text ++ [10; 10]%N
                 ++ lit "_(The AI provided code, but it appears to be empty. Action aborted.)_")
      | _ :: _ =>
          _ ← reply response_text;
          execute_code cleaned
      end
  | _ =>
      reply (response_text ++ [10; 10]%N
             ++ lit "_(Internal Error: AI indicated executable code, but none was provided.)_")
  end.

(** Lines 502-584, the body of the [try]. *)
Definition dispatch (response_text response_type : str)
    (code_to_execute : option str) : IO unit :=
  if str_eqb response_type (lit "text") || str_eqb response_type (lit "rejection") then
    send_text response_text
  else if str_eqb response_type (lit "audio") then
    send_audio response_text
  else if str_eqb response_type (lit "code") then
    run_code response_text code_to_execute
  else
    reply (response_text ++ [10; 10]%N
           ++ lit "_(Received an unexpected response type '" ++ response_type
           ++ lit "'. Displaying as text.)_").

(** The fallback notices of lines 592 and 599: [try: send  except
    discord.HTTPException: log]. *)
Definition send_fallback (notice : str) : IO unit :=
  try_except (emit (ESend notice))
    (fun e => if is_HTTPException e then mret tt else raise e).

(** Lines 587-601, the [except] clauses of the dispatcher. *)
Definition on_dispatch_error (e : exn) : IO unit :=
  match e with
  | Forbidden => mret tt
  | _ =>
      if is_HTTPException e then
        send_fallback (lit "_(An error occurred while sending the response to Discord.)_")
      else
        send_fallback (lit "_(An unexpected internal error occurred processing the response.)_")
  end.

(** Lines 493-496 read the fields of the payload with [.get].  The dicts
    that [call_ai_api] returns hold strings there (see [payload_shape]
    below), and the dispatcher is written over strings; on any other
    value the first string operation applied to it is a [TypeError]. *)
Definition field_str (d : dict) (key default : str) : result str :=
  match d !! key with
  | None => Ok default
  | Some (JStr s) => Ok s
  | Some _ => Raise TypeError
  end.

Definition field_code (d : dict) : result (option str) :=
  match d !! lit "code" with
  | None | Some JNull => Ok None
  | Some (JStr s) => Ok (Some s)
  | Some _ => Raise TypeError
  end.

Definition apology_context : str :=
  lit "An internal error occurred while gathering context.".

Definition apology_ai : str :=
  lit "My apologies. I encountered difficulty processing your request with the AI module. Please check the logs for details.".

(** Lines 476-601: the request once the author is known, inside
    [message.channel.typing()]. *)
Definition process_request (author : Author) (channel : Channel)
    (user_message_content : str) : IO unit :=
  let user_info := get_user_info author channel in
  if dict_falsy user_info then reply apology_context
  else
    ai_response_data ← call_ai_api user_message_content user_info;
    match ai_response_data with
    | None => reply apology_ai
    | Some d =>
        if dict_falsy d then reply apology_ai
        else
          response_text ← lift (field_str d (lit "response") (lit "I seem to be speechless."));
          feedback_text ← lift (field_str d (lit "feedback") (lit "No feedback provided."));
          response_type ← lift (field_str d (lit "type") (lit "text"));
          code_to_execute ← lift (field_code d);
          try_except (dispatch response_text response_type code_to_execute)
            on_dispatch_error
    end.

Definition mention_of (id : N) : str := lit "<@" ++ str_of_N id ++ lit ">".
Definition nick_mention_of (id : N) : str := lit "<@!" ++ str_of_N id ++ lit ">".

(** Lines 436-445. *)
Definition remove_mentions (content : str) (mentions : list N) : str :=
  let c :=
    fold_left
      (fun c id =>
         if (id =? bot_user_id W)%N then
           str_strip (str_replace1 (nick_mention_of id) []
             (str_strip (str_replace1 (mention_of id) [] c)))
         else c)
      mentions content in
  let c := str_strip (str_replace1 (mention_of (bot_user_id W)) [] c) in
  str_strip (str_replace1 (nick_mention_of (bot_user_id W)) [] c).

(** Lines 456-471: a plain user is looked up as a member of the guild. *)
Definition resolve_author (author : Author) (g : Guild) : IO (option Author) :=
  match author with
  | AMember _ _ _ => mret (Some author)
  | AUser id _ =>
      try_except
        (a ← guild_fetch_member g id; mret (Some a))
        (fun e =>
           match e with
           | NotFound =>
               _ ← reply (lit "Apologies, I couldn't verify your server details.");
               mret None
           | Forbidden =>
               _ ← reply (lit "I lack permissions to verify your details.");
               mret None
           | _ =>
               _ ← reply (lit "An error occurred verifying your details.");
               mret None
           end)
  end.

Definition on_message (message : Message) : IO unit :=
  if (author_id (author message) =? bot_user_id W)%N || author_bot (author message)
  then mret tt
  else
    let is_mention := mentions_bot message in
    let trigger_prefix := default (lit "metarunx,") (env_AI_TRIGGER_PREFIX W) in
    let is_trigger :=
      str_startswith (str_lower L trigger_prefix) (str_lower L (content message)) in
    if negb is_mention && negb is_trigger then emit EProcessCommands
    else
      match guild message, channel message with
      | Some g, GuildChannel _ =>
          let user_message_content :=
            if is_mention then remove_mentions (content message) (mentions message)
            else str_strip (py_slice (content message) (Some (len trigger_prefix)) None) in
          match user_message_content with
          | [] => emit (EReply (lit "Yes? You addressed me.") false (Some 10))
          | _ :: _ =>
              resolved ← resolve_author (author message) g;
              match resolved with
              | None => mret tt
              | Some author' =>
                  _ ← emit ETyping;
                  process_request author' (channel message) user_message_content
              end
          end
      | _, _ => mret tt
      end.

End Bot.

(* ===================================================================== *)
(** * Vocabulary of the properties *)
(* ===================================================================== *)

(** The request body that [call_ai_api] posts (lines 211-227). *)
Definition request_payload (L : pylib) (template user_message : str)
    (user_info : dict) : json :=
  completion_payload
    (str_replace (lit "{{userMessage}}") user_message
       (str_replace (lit "{{userInfoJson}}")
          (json_dumps_indent2 L (JDict user_info)) template))
    user_message.

(** What [call_ai_api] returns, as a function of what the endpoint
    answered. *)
Definition completion_result (L : pylib) (outcome : result http_response) : option dict :=
  match outcome with
  | Ok response =>
      match body_text response with
      | Ok response_text =>
          if status response =? 200 then
            match except_JSONDecodeError (unwrap_completion L response_text) (Ok None) with
            | Ok r => r
            | Raise _ => None
            end
          else None
      | Raise _ => None
      end
  | Raise _ => None
  end.

(** The string at [choices[0].message.content] of a provider envelope. *)
Definition envelope_content (w : json) : option str :=
  match w with
  | JDict wd =>
      match wd !! lit "choices" with
      | Some (JList (JDict c :: _)) =>
          match c !! lit "message" with
          | Some (JDict m) =>
              match m !! lit "content" with
              | Some (JStr s) => Some s
              | _ => None
              end
          | _ => None
          end
      | _ => None
      end
  | _ => None
  end.

Definition required_keys : list str := [lit "response"; lit "feedback"; lit "type"].

(** The inner documents that are not a completion payload. *)
Inductive malformed_payload : json -> Prop :=
| not_an_object v :
    (forall d, v <> JDict d) -> malformed_payload v
| missing_key d k :
    k ∈ required_keys -> d !! k = None -> malformed_payload (JDict d)
| wrong_type d k v :
    k ∈ required_keys -> d !! k = Some v -> is_JStr v = false ->
    malformed_payload (JDict d)
| unknown_tag d t :
    d !! lit "type" = Some (JStr t) -> t ∉ response_tags ->
    malformed_payload (JDict d)
| code_missing d :
    d !! lit "type" = Some (JStr (lit "code")) -> d !! lit "code" = None ->
    malformed_payload (JDict d)
| code_wrong_type d v :
    d !! lit "type" = Some (JStr (lit "code")) -> d !! lit "code" = Some v ->
    is_JStr v = false -> malformed_payload (JDict d)
| code_empty d c :
    d !! lit "type" = Some (JStr (lit "code")) -> d !! lit "code" = Some (JStr c) ->
    str_strip c = [] -> malformed_payload (JDict d).

(** The failures of a completion call: what the endpoint answered is not a
    200 response carrying a payload inside an envelope. *)
Inductive completion_failure (L : pylib) : result http_response -> Prop :=
| network_error e :                 (* ClientError, TimeoutError, any other *)
    completion_failure L (Raise e)
| bad_status r :
    status r <> 200 -> completion_failure L (Ok r)
| unreadable_body r e :
    body_text r = Raise e -> completion_failure L (Ok r)
| malformed_outer r t e :
    body_text r = Ok t -> json_loads L t = Raise e -> completion_failure L (Ok r)
| malformed_envelope r t w :
    body_text r = Ok t -> json_loads L t = Ok w -> envelope_content w = None ->
    completion_failure L (Ok r)
| empty_content r t w :
    body_text r = Ok t -> json_loads L t = Ok w -> envelope_content w = Some [] ->
    completion_failure L (Ok r)
| malformed_inner r t w s e :
    body_text r = Ok t -> json_loads L t = Ok w -> envelope_content w = Some s ->
    json_loads L s = Raise e -> completion_failure L (Ok r)
| malformed_content r t w s v :
    body_text r = Ok t -> json_loads L t = Ok w -> envelope_content w = Some s ->
    json_loads L s = Ok v -> malformed_payload v -> completion_failure L (Ok r).

(** The shape of a validated payload. *)
Definition payload_shape (d : dict) : Prop :=
  (exists s, d !! lit "response" = Some (JStr s)) /\
  (exists s, d !! lit "feedback" = Some (JStr s)) /\
  (exists t, d !! lit "type" = Some (JStr t) /\ t ∈ response_tags /\
             (is_Some (d !! lit "code") <-> t = lit "code") /\
             (t = lit "code" ->
              exists c, d !! lit "code" = Some (JStr c) /\ str_strip c <> [])).

(* ===================================================================== *)
(** * Concrete libraries and worlds, for examples *)
(* ===================================================================== *)

(** A JSON text written with apostrophes in place of double quotes. *)
Definition json_text (s : string) : str :=
  map (fun c => if (c =? 39)%N then 34%N else c) (lit s).

(** A decoder for the documents of a table; any other text is malformed. *)
Fixpoint table_loads (table : list (str * json)) (s : str) : result json :=
  match table with
  | [] => Raise JSONDecodeError
  | (t, v) :: rest => if str_eqb t s then Ok v else table_loads rest s
  end.

Definition ascii_lower (s : str) : str :=
  map (fun c => if ((65 <=? c) && (c <=? 90))%N then (c + 32)%N else c) s.

Definition table_lib (table : list (str * json)) : pylib :=
  {| json_loads := table_loads table;
     json_dumps_indent2 := fun _ => json_text "{}";
     str_lower := ascii_lower |}.

(** A world in which Discord accepts every call, the two endpoints give
    fixed answers, and Jishaku is loaded. *)
Definition quiet_world (post get : result http_response) : world :=
  {| bot_user_id := 1000;
     env_AI_TRIGGER_PREFIX := None;
     session_post := fun _ _ _ => post;
     session_get := fun _ _ => get;
     discord_fault := fun _ _ => None;
     fetch_member := fun _ _ _ => Raise NotFound;
     jishaku_cog := true;
     jsk_py_command := true;
     get_context_ok := true;
     exn_str := fun _ => lit "error" |}.

Definition text_response (code : Z) (body : str) : http_response :=
  {| status := code;
     header_content_type := Some (lit "application/json");
     body_text := Ok body;
     body_bytes := Ok [] |}.

Definition envelope_of (content : json) : json :=
  JDict (list_to_map
    [ (lit "choices",
       JList [ JDict (list_to_map
                 [ (lit "message",
                    JDict (list_to_map [ (lit "role", JStr (lit "assistant"));
                                         (lit "content", content) ]));
                   (lit "finish_reason", JStr (lit "stop")) ]) ]) ]).

(** The documents the sample decoder knows: an envelope around each of
    six inner texts, named A to F, and the inner texts that are JSON at
    all.  Inner text D is cut short and is not in the table. *)
Definition sample_documents : list (str * json) :=
  [ (json_text "{'choices': [{'message': {'content': 'A'}}]}",
     envelope_of (JStr (json_text "{'response': 'hi', 'feedback': 'ok', 'type': 'text'}")));
    (json_text "{'choices': [{'message': {'content': 'B'}}]}",
     envelope_of (JStr (json_text "{'response': 'hi', 'feedback': 'ok', 'type': 'poem'}")));
    (json_text "{'choices': [{'message': {'content': 'C'}}]}",
     envelope_of (JStr (json_text "{'response': 'hi', 'feedback': 'ok', 'type': 'code', 'code': '  '}")));
    (json_text "{'choices': [{'message': {'content': 'D'}}]}",
     envelope_of (JStr (json_text "{'response': 'hi', ")));
    (json_text "{'choices': [{'message': {'content': 'E'}}]}",
     envelope_of (JStr (json_text "{'response': 'hi', 'feedback': 'ok', 'type': 'audio', 'code': 'x'}")));
    (json_text "{'response': 'hi', 'feedback': 'ok', 'type': 'text'}",
     JDict (list_to_map [ (lit "response", JStr (lit "hi"));
                          (lit "feedback", JStr (lit "ok"));
                          (lit "type", JStr (lit "text")) ]));
    (json_text "{'response': 'hi', 'feedback': 'ok', 'type': 'poem'}",
     JDict (list_to_map [ (lit "response", JStr (lit "hi"));
                          (lit "feedback", JStr (lit "ok"));
                          (lit "type", JStr (lit "poem")) ]));
    (json_text "{'response': 'hi', 'feedback': 'ok', 'type': 'code', 'code': '  '}",
     JDict (list_to_map [ (lit "response", JStr (lit "hi"));
                          (lit "feedback", JStr (lit "ok"));
                          (lit "type", JStr (lit "code"));
                          (lit "code", JStr (lit "  ")) ]));
    (json_text "{'response': 'hi', 'feedback': 'ok', 'type': 'audio', 'code': 'x'}",
     JDict (list_to_map [ (lit "response", JStr (lit "hi"));
                          (lit "feedback", JStr (lit "ok"));
                          (lit "type", JStr (lit "audio"));
                          (lit "code", JStr (lit "x")) ]));
    (json_text "{'choices': [{'message': {'content': 'F'}}]}",
     envelope_of (JStr (json_text "{'response': 'On it.', 'feedback': 'ok', 'type': 'code', 'code': '```python\n    await ctx.send(1)\n    await ctx.send(2)\n```'}")));
    (json_text "{'response': 'On it.', 'feedback': 'ok', 'type': 'code', 'code': '```python\n    await ctx.send(1)\n    await ctx.send(2)\n```'}",
     JDict (list_to_map [ (lit "response", JStr (lit "On it."));
                          (lit "feedback", JStr (lit "ok"));
                          (lit "type", JStr (lit "code"));
                          (lit "code",
                           JStr (lit "```python" ++ [10%N] ++ lit "    await ctx.send(1)"
                                 ++ [10%N] ++ lit "    await ctx.send(2)"
                                 ++ [10%N] ++ lit "```")) ])) ].

Definition sample_lib : pylib := table_lib sample_documents.

Definition envelope_text (name : string) : str :=
  json_text "{'choices': [{'message': {'content': '" ++ lit name ++ json_text "'}}]}".

(** Answers of the completion endpoint that are failures: a timeout, a
    network error, a status 500, a body that is not JSON, an inner text
    that is not JSON, a tag outside the four, a blank [code]. *)
Definition sample_failures : list (result http_response) :=
  [ Raise TimeoutError;
    Raise ClientError;
    Ok (text_response 500 (lit "Internal Server Error"));
    Ok (text_response 200 (lit "<html>Bad gateway</html>"));
    Ok (text_response 200 (envelope_text "D"));
    Ok (text_response 200 (envelope_text "B"));
    Ok (text_response 200 (envelope_text "C")) ].

Definition sample_template : str :=
  lit "Context: {{userInfoJson}} Message: {{userMessage}}".

(** A guild with its baseline role and one real role; the requesting
    member holds the baseline role only, the bot holds the real one. *)
Definition everyone_role : Role :=
  {| role_id := 42; role_name := lit "@everyone"; role_position := 0 |}.

Definition helper_role : Role :=
  {| role_id := 7; role_name := lit "helper"; role_position := 3 |}.

Definition sample_bot_member : Member :=
  {| member_id := 1000; member_str := lit "metarunx"; nick := None;
     global_name := None; roles := [everyone_role; helper_role];
     top_role := helper_role;
     guild_permissions := [(lit "send_messages", true); (lit "kick_members", false)] |}.

Definition sample_guild : Guild :=
  {| guild_id := 42; owner_id := 5; me := sample_bot_member |}.

Definition sample_member : Member :=
  {| member_id := 77; member_str := lit "ada"; nick := Some (lit "Ada");
     global_name := None; roles := [everyone_role]; top_role := everyone_role;
     guild_permissions := [(lit "send_messages", true)] |}.

Definition sample_channel : Channel :=
  GuildChannel (fun m => guild_permissions m).

(** Line 335: the content type of the answer names audio. *)
Definition audio_content_type (L : pylib) (r : http_response) : bool :=
  str_contains (lit "audio") (str_lower L (default [] (header_content_type r))).

(** What [get_audio_from_text] returns, as a function of what the endpoint
    answered. *)
Definition audio_result (L : pylib) (outcome : result http_response) : option bytes :=
  match outcome with
  | Ok r =>
      if status r =? 200 then
        if audio_content_type L r then
          match body_bytes r with
          | Ok (b :: bs) => Some (b :: bs)
          | _ => None
          end
        else None
      else None
  | Raise _ => None
  end.

Definition audio_url_prefix : str := lit "https://text.pollinations.ai/".
Definition audio_url_suffix : str := lit "?model=openai-audio&voice=nova".

Definition audio_response (code : Z) (ctype : str) (data : bytes) : http_response :=
  {| status := code;
     header_content_type := Some ctype;
     body_text := Ok [];
     body_bytes := Ok data |}.

(** Discord accepts every call. *)
Definition no_faults (W : world) : Prop :=
  forall tr ev, discord_fault W tr ev = None.

(** The events of a response sent in parts: each part is a reply followed
    by the pause, and the first reply alone mentions the author. *)
Definition chunk_replies (parts : list str) : trace :=
  match parts with
  | [] => []
  | p :: rest =>
      EReply p true None :: ESleep
      :: flat_map (fun q => [EReply q false None; ESleep]) rest
  end.

(** The events of the reading in which only the first part is a reply and
    the later parts are plain sends to the channel. *)
Definition reply_then_sends (parts : list str) : trace :=
  match parts with
  | [] => []
  | p :: rest =>
      EReply p true None :: ESleep :: flat_map (fun q => [ESend q; ESleep]) rest
  end.

Definition is_send (ev : event) : bool :=
  match ev with ESend _ => true | _ => false end.

Definition is_post (ev : event) : bool :=
  match ev with EPost _ _ => true | _ => false end.

(** A line of text: no line boundary inside. *)
Definition single_line (s : str) : Prop :=
  Forall (fun c => is_linebreak c = false) s.

(** A fenced block: an opening delimiter line (the delimiter, possibly
    followed by a language name), the interior lines, the closing
    delimiter line. *)
Definition fenced_block (opening : str) (interior : list str) : str :=
  str_join [10%N] (opening :: interior ++ [fence]).

Definition notice_empty_code (response_text : str) : str :=
  response_text ++ [10; 10]%N
  ++ lit "_(The AI provided code, but it appears to be empty. Action aborted.)_".

(** The author and the channel are a member of a guild and a channel of a
    guild: the two tests of lines 161 and 164. *)
Definition resolves (author : Author) (channel : Channel) : bool :=
  match author, channel with
  | AMember _ (Some _) _, GuildChannel _ => true
  | _, _ => false
  end.

(** A world that accepts everything and in which the endpoints are down. *)
Definition calm_world : world := quiet_world (Raise ClientError) (Raise ClientError).

(** Messages: one sent in the guild with the trigger phrase, one from a
    member object that has lost its guild, one sent to the bot directly. *)
Definition guild_message (text : str) : Message :=
  {| message_id := 1;
     author := AMember sample_member (Some sample_guild) false;
     content := text;
     channel := sample_channel;
     guild := Some sample_guild;
     mentions := [];
     mentions_bot := false |}.

Definition orphan_message : Message :=
  {| message_id := 2;
     author := AMember sample_member None false;
     content := lit "Metarunx, who am I?";
     channel := sample_channel;
     guild := Some sample_guild;
     mentions := [];
     mentions_bot := false |}.

Definition direct_message : Message :=
  {| message_id := 3;
     author := AUser 77 false;
     content := lit "<@1000> hello";
     channel := OtherChannel;
     guild := None;
     mentions := [1000%N];
     mentions_bot := true |}.

(** A world that accepts everything, whose completion endpoint answers
    with the envelope of that name and whose audio endpoint answers with
    three bytes of audio. *)
Definition answering (name : string) : world :=
  quiet_world (Ok (text_response 200 (envelope_text name)))
    (Ok (audio_response 200 (lit "audio/mpeg") [Byte.x49; Byte.x44; Byte.x33])).

(** A sentence to be spoken, said 180 times over: 1980 characters, three
    spaces in every eleven. *)
Definition spoken_text : str := concat (repeat (lit "so it goes ") 180).

(* ===================================================================== *)
(** * Vocabulary of the further properties *)
(* ===================================================================== *)

(** The keys of the snapshot (lines 184-206). *)
Definition snapshot_keys : list str :=
  [ lit "userId"; lit "serverId"; lit "userName"; lit "userNick";
    lit "userGlobalName"; lit "userRoles"; lit "userRoleIds"; lit "userTopRoleId";
    lit "userTopRoleName"; lit "userTopRolePosition"; lit "userChannelPermissions";
    lit "userGuildPermissions"; lit "isOwner"; lit "botUserId"; lit "botTopRoleId";
    lit "botTopRolePosition"; lit "botGuildPermissions"; lit "botChannelPermissions" ].

(** The characters of a percent-encoded path segment: letters, digits,
    [_.-~] and the percent sign. *)
Definition url_char (c : N) : bool := always_safe c || (c =? 37)%N.

(** A surrogate code point. *)
Definition is_surrogate (c : N) : bool := ((55296 <=? c) && (c <=? 57343))%N.



Definition is_get (ev : event) : bool :=
  match ev with EGet _ => true | _ => false end.

Definition is_invoke (ev : event) : bool :=
  match ev with EInvoke _ => true | _ => false end.

(** The computation [m] leaves the trace it is given as it is and adds
    events to its end; what it adds satisfies [Q]. *)
Definition emits {A : Type} (Q : trace -> Prop) (m : IO A) : Prop :=
  forall tr, exists new, snd (m tr) = tr ++ new /\ Q new.

Definition count (f : event -> bool) (new : list event) : nat :=
  length (filter (fun ev => f ev = true) new).

(** At most [p] completion calls, [g] audio fetches and [i] invocations
    of the Jishaku command. *)
Definition within (p g i : nat) (new : trace) : Prop :=
  (count is_post new <= p)%nat /\ (count is_get new <= g)%nat
  /\ (count is_invoke new <= i)%nat.

(** The apology sent when the author cannot be fetched as a member of the
    guild (lines 460-471). *)
Definition fetch_apology (e : exn) : str :=
  match e with
  | NotFound => lit "Apologies, I couldn't verify your server details."
  | Forbidden => lit "I lack permissions to verify your details."
  | _ => lit "An error occurred verifying your details."
  end.

(** Every invocation of the Jishaku command among [new] runs a code that
    is [allowed]. *)
Definition invokes_only (allowed : str -> Prop) (new : trace) : Prop :=
  Forall (fun ev => forall arg, ev = EInvoke arg -> allowed arg) new.

(** The code that a payload asks to run: the payload has type [code] and
    [arg] is its [code] field after the cleanup, which left something. *)
Definition code_of_payload (d : dict) (arg : str) : Prop :=
  d !! lit "type" = Some (JStr (lit "code"))
  /\ exists code, d !! lit "code" = Some (JStr code)
                  /\ clean_code code = Ok arg /\ arg <> [].

(** The Jishaku cog, its [py] command and an invocation context are all
    there. *)
Definition jishaku_ready (W : world) : Prop :=
  jishaku_cog W = true /\ jsk_py_command W = true /\ get_context_ok W = true.

(** The tests and the text of the first lines of [on_message]: whether
    the author is the bot or another bot (line 416), whether the message
    addresses the bot (lines 420-425), and the text of the request once
    the mention or the trigger phrase is taken off (lines 435-448). *)
Definition from_bot (W : world) (message : Message) : bool :=
  (author_id (author message) =? bot_user_id W)%N || author_bot (author message).

Definition trigger_prefix_of (W : world) : str :=
  default (lit "metarunx,") (env_AI_TRIGGER_PREFIX W).

Definition is_addressed (L : pylib) (W : world) (message : Message) : bool :=
  mentions_bot message
  || str_startswith (str_lower L (trigger_prefix_of W)) (str_lower L (content message)).

Definition request_text (W : world) (message : Message) : str :=
  if mentions_bot message then remove_mentions W (content message) (mentions message)
  else str_strip (py_slice (content message) (Some (len (trigger_prefix_of W))) None).

Definition greeting : str := lit "Yes? You addressed me.".

(** A message in the guild, mentioning the bot, from a user who is not
    given as a member object. *)
Definition stranger_message : Message :=
  {| message_id := 4;
     author := AUser 77 false;
     content := lit "<@1000> hello";
     channel := sample_channel;
     guild := Some sample_guild;
     mentions := [1000%N];
     mentions_bot := true |}.

(** The events of a text or rejection response when every send is
    accepted. *)
Definition text_events (s : str) : trace :=
  if len s >? 2000 then chunk_replies (split_parts s) else [EReply s false None].

(** A world like [calm_world] in which Discord refuses, with an HTTP
    error, the call made when two events have happened. *)
Definition flaky_world : world :=
  {| bot_user_id := 1000;
     env_AI_TRIGGER_PREFIX := None;
     session_post := fun _ _ _ => Raise ClientError;
     session_get := fun _ _ => Raise ClientError;
     discord_fault := fun tr _ => if Nat.eqb (length tr) 2 then Some HTTPException else None;
     fetch_member := fun _ _ _ => Raise NotFound;
     jishaku_cog := true;
     jsk_py_command := true;
     get_context_ok := true;
     exn_str := fun _ => lit "error" |}.

(** The notice of line 580. *)
Definition notice_setup_error (W : world) (e : exn) : str :=
  lit "_(Error during code execution setup: " ++ exn_str W e ++ lit ")_".

(** The names in a list of the snapshot. *)
Definition listed (name : str) (v : option json) : Prop :=
  exists items, v = Some (JList items) /\ JStr name ∈ items.

(* ===================================================================== *)
(** * Properties *)
(* ===================================================================== *)

Example strip_example : str_strip (lit "  a b  ") = lit "a b".
Proof. reflexivity. Qed.

Example splitlines_example :
  str_splitlines (lit "ab" ++ [13; 10]%N ++ lit "c" ++ [10; 10]%N ++ lit "d" ++ [10]%N)
  = [lit "ab"; lit "c"; []; lit "d"].
Proof. reflexivity. Qed.

Example replace_example :
  str_replace (lit "aa") (lit "b") (lit "aaaxaa") = lit "baxb".
Proof. reflexivity. Qed.

Example range_example : py_range 0 4200 1990 = [0; 1990; 3980].
Proof. reflexivity. Qed.

Example slice_example :
  py_slice (lit "abcdef") (Some 1) (Some (-1)) = lit "bcde".
Proof. reflexivity. Qed.

Example quote_example : quote (lit "a b/~" ++ [233%N]) = Ok (lit "a%20b%2F~%C3%A9").
Proof. reflexivity. Qed.

(* --------------------------------------------------------------------- *)
(** ** Slices and ranges *)
(* --------------------------------------------------------------------- *)

Section Slices.

Context {A : Type}.
Implicit Types l : list A.

Lemma py_slice_between l (i j : Z) :
  0 <= i <= j ->
  py_slice l (Some i) (Some j) = take (Z.to_nat (j - i)) (drop (Z.to_nat i) l).
Proof.
  intros Hij. unfold py_slice, clamp_index, len.
  rewrite (proj2 (Z.ltb_ge i 0)) by lia. rewrite (proj2 (Z.ltb_ge j 0)) by lia.
  destruct (Z.le_gt_cases (Z.of_nat (length l)) i) as [Hge|Hlt].
  - rewrite !Z.min_r by lia. rewrite Z.sub_diag, Nat2Z.id, drop_all. cbn.
    rewrite (drop_ge l (Z.to_nat i)) by lia. by rewrite !take_nil.
  - rewrite (Z.min_l i) by lia.
    destruct (Z.le_gt_cases j (Z.of_nat (length l))) as [Hj|Hj].
    + by rewrite Z.min_l by lia.
    + rewrite Z.min_r by lia.
      rewrite !take_ge; [done| |]; rewrite length_drop; lia.
Qed.

Lemma py_slice_prefix l (n : Z) :
  0 <= n -> py_slice l None (Some n) = take (Z.to_nat n) l.
Proof.
  intros Hn. unfold py_slice, clamp_index, len.
  rewrite (proj2 (Z.ltb_ge n 0)) by lia. rewrite Z.sub_0_r.
  change (Z.to_nat 0) with 0%nat. rewrite drop_0.
  destruct (Z.le_gt_cases n (Z.of_nat (length l))) as [Hj|Hj].
  - by rewrite Z.min_l by lia.
  - rewrite Z.min_r by lia. rewrite Nat2Z.id. rewrite !take_ge; [done|lia|lia].
Qed.

Lemma py_slice_suffix l (i : Z) :
  0 <= i -> py_slice l (Some i) None = drop (Z.to_nat i) l.
Proof.
  intros Hi. unfold py_slice, clamp_index, len.
  rewrite (proj2 (Z.ltb_ge i 0)) by lia.
  destruct (Z.le_gt_cases (Z.of_nat (length l)) i) as [Hge|Hlt].
  - rewrite Z.min_r by lia. rewrite Z.sub_diag, Nat2Z.id, drop_all. cbn.
    by rewrite (drop_ge l (Z.to_nat i)) by lia.
  - rewrite Z.min_l by lia. apply take_ge. rewrite length_drop. lia.
Qed.

(** [lines[1:-1]] drops the first and the last element. *)
Lemma py_slice_inner (a z : A) (mid : list A) :
  py_slice (a :: mid ++ [z]) (Some 1) (Some (-1)) = mid.
Proof.
  unfold py_slice, clamp_index, len. cbn [Z.ltb Z.compare].
  rewrite length_cons, length_app. cbn [length].
  rewrite Z.min_l by lia. rewrite Z.max_r by lia.
  replace (Z.to_nat (-1 + Z.of_nat (S (length mid + 1)) - 1)) with (length mid) by lia.
  change (drop (Z.to_nat 1) (a :: mid ++ [z])) with (mid ++ [z]).
  by rewrite take_app_length.
Qed.

End Slices.

(* --------------------------------------------------------------------- *)
(** ** The completion client *)
(* --------------------------------------------------------------------- *)

Section Completion.

Variable L : pylib.
Variable W : world.
Variable template : str.

(** [call_ai_api] posts once, never raises, and its value depends on the
    answer alone. *)
Lemma call_ai_api_run (msg : str) (info : dict) (tr : trace) :
  call_ai_api L W template msg info tr
  = (Ok (completion_result L
           (session_post W tr AI_TEXT_API_URL (request_payload L template msg info))),
     tr ++ [EPost AI_TEXT_API_URL (request_payload L template msg info)]).
Proof.
  unfold call_ai_api, try_except, http_post, request_payload, completion_result.
  unfold mbind, IO_bind, mret, IO_ret, lift.
  destruct (session_post W tr _ _) as [r|e]; [|by destruct e].
  destruct (body_text r) as [t|e]; [|by destruct e].
  destruct (status r =? 200); [|done].
  destruct (except_JSONDecodeError _ _) as [x|e]; [done|by destruct e].
Qed.

Lemma len_cons_pos {A : Type} (x : A) (l : list A) : (0 <? len (x :: l)) = true.
Proof. unfold len. apply Z.ltb_lt. simpl length. lia. Qed.

(** With a string at [choices[0].message.content], the envelope is
    unwrapped to the validation of that string. *)
Lemma unwrap_with_content (t : str) (w : json) (s : str) :
  json_loads L t = Ok w -> envelope_content w = Some s ->
  unwrap_completion L t
  = if bool_decide (s = []) then Ok None
    else except_JSONDecodeError (validate_content L (JStr s)) (Ok None).
Proof.
  intros Hw Hc. unfold unwrap_completion. rewrite Hw. cbn [mbind result_bind].
  unfold envelope_content in Hc.
  destruct w as [| | | | |?|wd]; try discriminate.
  destruct (wd !! lit "choices") as [[| | | | |[|[| | | | | |c] ?]|]|] eqn:Hch;
    try discriminate.
  destruct (c !! lit "message") as [[| | | | | |m]|] eqn:Hm; try discriminate.
  destruct (m !! lit "content") as [[| | | |s'| |]|] eqn:Hs; try discriminate.
  injection Hc as ->.
  cbn [py_contains mbind result_bind py_getitem]. rewrite Hch.
  rewrite bool_decide_eq_true_2 by eauto.
  cbn. rewrite len_cons_pos, Hm. cbn. rewrite Hs. cbn.
  destruct s; reflexivity.
Qed.

(** Without one, nothing is returned: the envelope is refused or an
    operation on it raises. *)
Lemma unwrap_without_content (t : str) (w : json) :
  json_loads L t = Ok w -> envelope_content w = None ->
  unwrap_completion L t = Ok None
  \/ exists e, e <> JSONDecodeError /\ unwrap_completion L t = Raise e.
Proof.
  intros Hw Hc. unfold unwrap_completion. rewrite Hw. cbn [mbind result_bind].
  unfold envelope_content in Hc.
  destruct w as [| | | |ws|wl|wd]; cbn;
    try (right; eexists; split; [|reflexivity]; discriminate).
  - destruct (str_contains _ _); cbn; [right; eexists; split; [|reflexivity]; discriminate|by left].
  - destruct (existsb _ _); cbn; [right; eexists; split; [|reflexivity]; discriminate|by left].
  - destruct (wd !! lit "choices") as [ch|] eqn:Hch.
    2:{ rewrite bool_decide_eq_false_2 by (intros [? ?]; discriminate). by left. }
    rewrite bool_decide_eq_true_2 by eauto. cbn.
    destruct ch as [| | | |cs|cl|cd]; cbn;
      try (right; eexists; split; [|reflexivity]; discriminate).
    + destruct cs; cbn; [by left|].
      rewrite len_cons_pos. cbn. right; eexists; split; [|reflexivity]; discriminate.
    + destruct cl as [|c0 cl]; cbn; [by left|].
      rewrite len_cons_pos.
      destruct c0 as [| | | | | |c]; cbn;
        try (right; eexists; split; [|reflexivity]; discriminate).
      destruct (c !! lit "message") as [[| | | | | |m]|] eqn:Hm; cbn;
        try (right; eexists; split; [|reflexivity]; discriminate).
      * destruct (m !! lit "content") as [[|b|z|f|s|l|d]|] eqn:Hs; cbn;
          try discriminate; try by left.
        -- destruct b; cbn; [|by left].
           right; eexists; split; [|reflexivity]; discriminate.
        -- destruct (z =? 0); cbn; [by left|].
           right; eexists; split; [|reflexivity]; discriminate.
        -- destruct f; cbn; [|by left].
           right; eexists; split; [|reflexivity]; discriminate.
        -- destruct l; cbn; [by left|].
           right; eexists; split; [|reflexivity]; discriminate.
        -- destruct (Nat.eqb (size d) 0); cbn; [by left|].
           right; eexists; split; [|reflexivity]; discriminate.
      * rewrite lookup_empty. cbn. by left.
    + destruct (0 <? Z.of_nat (size cd)); cbn; [|by left].
      right; eexists; split; [|reflexivity]; discriminate.
Qed.

Lemma has_str_true (d : dict) (k : str) :
  has_str d k = true -> exists s, d !! k = Some (JStr s).
Proof.
  unfold has_str. destruct (d !! k) as [[| | | |s| |]|]; try discriminate. eauto.
Qed.

Lemma has_str_false (d : dict) (k : str) (v : json) :
  d !! k = None \/ (d !! k = Some v /\ is_JStr v = false) -> has_str d k = false.
Proof.
  unfold has_str. intros [->|[-> Hv]]; [done|]. by destruct v.
Qed.

Lemma tag_of_type (d : dict) (t : str) :
  d !! lit "type" = Some (JStr t) -> tag_of d = t.
Proof. unfold tag_of. by intros ->. Qed.

Lemma str_eqb_refl (s : str) : str_eqb s s = true.
Proof. unfold str_eqb. by apply bool_decide_eq_true_2. Qed.

Lemma str_eqb_eq (a b : str) : str_eqb a b = true <-> a = b.
Proof. unfold str_eqb. apply bool_decide_eq_true. Qed.

Ltac lit_neq := let H := fresh in intros H; vm_compute in H; discriminate H.

(** A malformed payload is refused by the validation. *)
Lemma validate_malformed (s : str) (v : json) :
  json_loads L s = Ok v -> malformed_payload v ->
  validate_content L (JStr s) = Ok None.
Proof.
  intros Hs Hv. unfold validate_content, py_json_loads. rewrite Hs.
  cbn [mbind result_bind].
  destruct Hv as [v Hv|d k Hk Hm|d k v Hk Hm Hv|d t Ht Hn|d Ht Hc|d v Ht Hc Hv|d c Ht Hc Hv].
  - destruct v; try reflexivity. by destruct (Hv d).
  - assert (has_str d k = false) as Hf by (apply (has_str_false d k JNull); auto).
    unfold required_keys in Hk. set_unfold in Hk.
    destruct Hk as [->|[->|[->|[]]]]; rewrite Hf;
      rewrite ?andb_false_r, ?andb_false_l; reflexivity.
  - assert (has_str d k = false) as Hf by (apply (has_str_false d k v); auto).
    unfold required_keys in Hk. set_unfold in Hk.
    destruct Hk as [->|[->|[->|[]]]]; rewrite Hf;
      rewrite ?andb_false_r, ?andb_false_l; reflexivity.
  - rewrite (tag_of_type d t Ht).
    rewrite (bool_decide_eq_false_2 _ Hn), andb_false_r. reflexivity.
  - rewrite (tag_of_type d _ Ht), str_eqb_refl. unfold code_unusable. rewrite Hc.
    by destruct (_ && _).
  - rewrite (tag_of_type d _ Ht), str_eqb_refl. unfold code_unusable. rewrite Hc.
    destruct v; try discriminate; by destruct (_ && _).
  - rewrite (tag_of_type d _ Ht), str_eqb_refl. unfold code_unusable. rewrite Hc.
    rewrite (bool_decide_eq_true_2 _ Hv). by destruct (_ && _).
Qed.

(** What the validation lets through has the shape of a payload. *)
Lemma validate_shape (v : json) (d : dict) :
  validate_content L v = Ok (Some d) -> payload_shape d.
Proof.
  unfold validate_content. destruct (py_json_loads L v) as [p|e]; [|discriminate].
  cbn [mbind result_bind].
  destruct p as [| | | | | |d0]; try discriminate.
  destruct (has_str d0 (lit "response")) eqn:Hr; [|discriminate].
  destruct (has_str d0 (lit "feedback")) eqn:Hf; [|discriminate].
  destruct (has_str d0 (lit "type")) eqn:Ht; [|discriminate].
  cbn [andb].
  destruct (bool_decide (tag_of d0 ∈ response_tags)) eqn:Hin; [|discriminate].
  apply bool_decide_eq_true_1 in Hin.
  apply has_str_true in Hr as [r Hr]. apply has_str_true in Hf as [f Hf].
  apply has_str_true in Ht as [t Ht]. rewrite (tag_of_type d0 t Ht) in *.
  unfold str_eqb. destruct (bool_decide (t = lit "code")) eqn:Hcode.
  - apply bool_decide_eq_true_1 in Hcode. unfold code_unusable.
    destruct (d0 !! lit "code") as [[| | | |c| |]|] eqn:Hc; try discriminate.
    destruct (bool_decide (str_strip c = [])) eqn:He; [discriminate|].
    apply bool_decide_eq_false_1 in He. intros [= <-].
    split; [eauto|]. split; [eauto|]. exists t. rewrite Hc.
    split; [done|]. split; [done|]. split; [by split; eauto|].
    intros _. by exists c.
  - apply bool_decide_eq_false_1 in Hcode.
    destruct (bool_decide (is_Some (d0 !! lit "code"))) eqn:Hc; intros [= <-].
    + split; [|split].
      * exists r. rewrite lookup_delete_ne; [done|lit_neq].
      * exists f. rewrite lookup_delete_ne; [done|lit_neq].
      * exists t. rewrite lookup_delete_ne; [|lit_neq]. rewrite lookup_delete_eq.
        repeat split; try done.
    + apply bool_decide_eq_false_1 in Hc.
      split; [eauto|]. split; [eauto|]. exists t. by repeat split.
Qed.

Lemma completion_failure_result (o : result http_response) :
  completion_failure L o -> completion_result L o = None.
Proof.
  intros H. unfold completion_result.
  destruct H as [e|r Hs|r e Hb|r t e Hb Ht|r t w Hb Ht Hc|r t w Hb Ht Hc
                 |r t w s e Hb Ht Hc Hs|r t w s v Hb Ht Hc Hs Hv].
  - reflexivity.
  - destruct (body_text r); [|done].
    by rewrite (proj2 (Z.eqb_neq _ _) Hs).
  - by rewrite Hb.
  - rewrite Hb. destruct (status r =? 200); [|done].
    unfold unwrap_completion. rewrite Ht. by destruct e.
  - rewrite Hb. destruct (status r =? 200); [|done].
    destruct (unwrap_without_content t w Ht Hc) as [->|[e [Hne ->]]]; [done|].
    by destruct e.
  - rewrite Hb. destruct (status r =? 200); [|done].
    by rewrite (unwrap_with_content t w [] Ht Hc).
  - rewrite Hb. destruct (status r =? 200); [|done].
    rewrite (unwrap_with_content t w s Ht Hc).
    destruct (bool_decide (s = [])); [done|].
    unfold validate_content, py_json_loads. rewrite Hs. by destruct e.
  - rewrite Hb. destruct (status r =? 200); [|done].
    rewrite (unwrap_with_content t w s Ht Hc).
    destruct (bool_decide (s = [])); [done|].
    by rewrite (validate_malformed s v Hs Hv).
Qed.

Lemma has_str_false_inv (d : dict) (k : str) :
  has_str d k = false ->
  d !! k = None \/ exists v, d !! k = Some v /\ is_JStr v = false.
Proof.
  unfold has_str. destruct (d !! k) as [v|]; [|by left].
  intros H. right. exists v. split; [done|]. by destruct v.
Qed.

Lemma has_str_malformed (d : dict) (k : str) :
  k ∈ required_keys -> has_str d k = false -> malformed_payload (JDict d).
Proof.
  intros Hk H. destruct (has_str_false_inv d k H) as [Hn|[v [Hv Hs]]].
  - by apply (missing_key d k).
  - by apply (wrong_type d k v).
Qed.

(** Conversely, a decoded document that the validation refuses is
    malformed in one of the listed ways. *)
Lemma validate_refused (s : str) (v : json) :
  json_loads L s = Ok v -> validate_content L (JStr s) = Ok None ->
  malformed_payload v.
Proof.
  intros Hs. unfold validate_content, py_json_loads. rewrite Hs.
  cbn [mbind result_bind].
  destruct v as [| | | | | |d]; try (intros _; by apply not_an_object).
  destruct (has_str d (lit "response")) eqn:Hr.
  2:{ intros _. apply (has_str_malformed d (lit "response")); [|done].
      unfold required_keys. set_solver. }
  destruct (has_str d (lit "feedback")) eqn:Hf.
  2:{ intros _. apply (has_str_malformed d (lit "feedback")); [|done].
      unfold required_keys. set_solver. }
  destruct (has_str d (lit "type")) eqn:Ht.
  2:{ intros _. apply (has_str_malformed d (lit "type")); [|done].
      unfold required_keys. set_solver. }
  apply has_str_true in Ht as [t Ht]. rewrite (tag_of_type d t Ht). cbn [andb].
  destruct (bool_decide (t ∈ response_tags)) eqn:Hin.
  2:{ intros _. apply bool_decide_eq_false_1 in Hin. by apply (unknown_tag d t). }
  destruct (str_eqb t (lit "code")) eqn:Hcode.
  - apply str_eqb_eq in Hcode. subst t. unfold code_unusable.
    destruct (d !! lit "code") as [c|] eqn:Hc; [|intros _; by apply code_missing].
    destruct c as [| | | |c| |]; try (intros _; by eapply code_wrong_type).
    destruct (bool_decide (str_strip c = [])) eqn:He; [|discriminate].
    intros _. apply bool_decide_eq_true_1 in He. by apply (code_empty d c).
  - by destruct (bool_decide (is_Some (d !! lit "code"))).
Qed.

(** The failures are all the answers for which nothing is returned. *)
Lemma completion_result_none (o : result http_response) :
  completion_result L o = None -> completion_failure L o.
Proof.
  unfold completion_result.
  destruct o as [r|e]; [|intros _; apply network_error].
  destruct (body_text r) as [t|e] eqn:Hb; [|intros _; by eapply unreadable_body].
  destruct (status r =? 200) eqn:Hst.
  2:{ intros _. apply bad_status. by apply Z.eqb_neq. }
  destruct (json_loads L t) as [w|e] eqn:Ht; [|intros _; by eapply malformed_outer].
  destruct (envelope_content w) as [s|] eqn:Hc;
    [|intros _; by eapply malformed_envelope].
  rewrite (unwrap_with_content t w s Ht Hc).
  destruct (bool_decide (s = [])) eqn:He.
  { intros _. apply bool_decide_eq_true_1 in He. subst s. by eapply empty_content. }
  destruct (json_loads L s) as [v|e] eqn:Hs; [|intros _; by eapply malformed_inner].
  destruct (validate_content L (JStr s)) as [[d|]|e] eqn:Hv.
  - discriminate.
  - intros _. eapply malformed_content; eauto. by eapply validate_refused.
  - unfold validate_content, py_json_loads in Hv. rewrite Hs in Hv.
    cbn [mbind result_bind] in Hv.
    destruct v as [| | | | | |d]; try discriminate.
    repeat match type of Hv with
           | context [if ?b then _ else _] => destruct b
           end; discriminate.
Qed.

Lemma completion_result_shape (o : result http_response) (d : dict) :
  completion_result L o = Some d -> payload_shape d.
Proof.
  unfold completion_result.
  destruct o as [r|]; [|discriminate].
  destruct (body_text r) as [t|]; [|discriminate].
  destruct (status r =? 200); [|discriminate].
  destruct (json_loads L t) as [w|e] eqn:Ht.
  2:{ unfold unwrap_completion. rewrite Ht. by destruct e. }
  destruct (envelope_content w) as [s|] eqn:Hc.
  - rewrite (unwrap_with_content t w s Ht Hc).
    destruct (bool_decide (s = [])); [discriminate|].
    destruct (validate_content L (JStr s)) as [[d'|]|e] eqn:Hv;
      [|discriminate|by destruct e].
    cbn. intros [= <-]. eapply validate_shape; eauto.
  - destruct (unwrap_without_content t w Ht Hc) as [->|[e [Hne ->]]];
      [discriminate|by destruct e].
Qed.

(** C1.  Whatever the failure of the completion call (a network error or a
    timeout, a status other than 200, an unreadable or malformed outer
    body, an envelope without a content string, a malformed inner
    document, a payload with a key missing or of the wrong type, a tag
    outside the four, a missing or blank [code] under the tag [code]),
    [call_ai_api] returns the same [None], after the one POST, and the
    caller cannot tell the failures apart. *)
Theorem call_ai_api_failures_collapse (msg : str) (info : dict) (tr : trace) :
  completion_failure L
    (session_post W tr AI_TEXT_API_URL (request_payload L template msg info)) ->
  call_ai_api L W template msg info tr
  = (Ok None, tr ++ [EPost AI_TEXT_API_URL (request_payload L template msg info)]).
Proof.
  intros H. rewrite call_ai_api_run.
  by rewrite (completion_failure_result _ H).
Qed.

(** C2.  A dict returned by [call_ai_api] has string fields [response] and
    [feedback], a [type] among the four tags, and a [code] key exactly
    when the type is [code], where it is a string that is not blank. *)
Theorem call_ai_api_payload_shape (msg : str) (info : dict) (tr tr' : trace)
    (d : dict) :
  call_ai_api L W template msg info tr = (Ok (Some d), tr') ->
  payload_shape d.
Proof.
  rewrite call_ai_api_run. intros [= H _].
  eapply completion_result_shape; eauto.
Qed.

End Completion.

Lemma call_ai_api_failures_collapse_witness :
  Forall
    (fun o =>
       completion_failure sample_lib o /\
       fst (call_ai_api sample_lib (quiet_world o (Raise ClientError)) sample_template
              (lit "hello") ∅ []) = Ok None)
    sample_failures.
Proof.
  assert (forall o, completion_failure sample_lib o ->
            completion_failure sample_lib o /\
            fst (call_ai_api sample_lib (quiet_world o (Raise ClientError))
                   sample_template (lit "hello") ∅ []) = Ok None) as step.
  { intros o Ho. split; [exact Ho|].
    by rewrite (call_ai_api_failures_collapse sample_lib
                  (quiet_world o (Raise ClientError)) sample_template
                  (lit "hello") ∅ [] Ho). }
  unfold sample_failures. repeat apply Forall_cons_2; try apply Forall_nil_2; apply step.
  - apply network_error.
  - apply network_error.
  - apply bad_status. vm_compute. discriminate.
  - eapply malformed_outer; [reflexivity|]. vm_compute. reflexivity.
  - eapply (malformed_inner _ _ _
              (envelope_of (JStr (json_text "{'response': 'hi', ")))
              (json_text "{'response': 'hi', ") JSONDecodeError);
      [reflexivity|vm_compute; reflexivity|vm_compute; reflexivity|vm_compute; reflexivity].
  - eapply (malformed_content _ _ _
              (envelope_of (JStr (json_text "{'response': 'hi', 'feedback': 'ok', 'type': 'poem'}")))
              (json_text "{'response': 'hi', 'feedback': 'ok', 'type': 'poem'}")
              (JDict (list_to_map [ (lit "response", JStr (lit "hi"));
                                    (lit "feedback", JStr (lit "ok"));
                                    (lit "type", JStr (lit "poem")) ])));
      [reflexivity|vm_compute; reflexivity|vm_compute; reflexivity|vm_compute; reflexivity|].
    apply (unknown_tag _ (lit "poem")); [vm_compute; reflexivity|].
    intros H. vm_compute in H. set_unfold in H. 
    repeat (destruct H as [H|H]; [discriminate H|]). exact H.
  - eapply (malformed_content _ _ _
              (envelope_of (JStr (json_text "{'response': 'hi', 'feedback': 'ok', 'type': 'code', 'code': '  '}")))
              (json_text "{'response': 'hi', 'feedback': 'ok', 'type': 'code', 'code': '  '}")
              (JDict (list_to_map [ (lit "response", JStr (lit "hi"));
                                    (lit "feedback", JStr (lit "ok"));
                                    (lit "type", JStr (lit "code"));
                                    (lit "code", JStr (lit "  ")) ])));
      [reflexivity|vm_compute; reflexivity|vm_compute; reflexivity|vm_compute; reflexivity|].
    apply (code_empty _ (lit "  ")); vm_compute; reflexivity.
Defined.

Lemma call_ai_api_payload_shape_witness :
  exists d tr',
    call_ai_api sample_lib
      (quiet_world (Ok (text_response 200 (envelope_text "E"))) (Raise ClientError))
      sample_template (lit "say hi") ∅ [] = (Ok (Some d), tr')
    /\ d !! lit "code" = None
    /\ payload_shape d.
Proof.
  eexists (list_to_map [ (lit "response", JStr (lit "hi"));
                         (lit "feedback", JStr (lit "ok"));
                         (lit "type", JStr (lit "audio")) ]), _.
  assert (call_ai_api sample_lib
      (quiet_world (Ok (text_response 200 (envelope_text "E"))) (Raise ClientError))
      sample_template (lit "say hi") ∅ []
      = (Ok (Some (list_to_map [ (lit "response", JStr (lit "hi"));
                         (lit "feedback", JStr (lit "ok"));
                         (lit "type", JStr (lit "audio")) ])),
         [EPost AI_TEXT_API_URL (request_payload sample_lib sample_template (lit "say hi") ∅)]))
    as H by (vm_compute; reflexivity).
  split; [exact H|]. split; [vm_compute; reflexivity|].
  exact (call_ai_api_payload_shape _ _ _ _ _ _ _ _ H).
Defined.

(* --------------------------------------------------------------------- *)
(** ** The authorization snapshot *)
(* --------------------------------------------------------------------- *)

Lemma snapshot_truthy (m : Member) (g : Guild) (b : bool) (pf : Member -> Permissions) :
  dict_falsy (get_user_info (AMember m (Some g) b) (GuildChannel pf)) = false.
Proof. unfold get_user_info. vm_compute. reflexivity. Qed.

(** C9.  The two position fields of the snapshot are [get_role_pos] of the
    member's and of the bot's top role; [get_role_pos] gives -1 to the
    baseline role (the one whose id is the guild's) and its real position
    to any other role, so the baseline never shares a value with a role of
    non-negative position. *)
Theorem snapshot_role_positions (m : Member) (g : Guild) (b : bool)
    (pf : Member -> Permissions) :
  let info := get_user_info (AMember m (Some g) b) (GuildChannel pf) in
  info !! lit "userTopRolePosition" = Some (JInt (get_role_pos g (Some (top_role m))))
  /\ info !! lit "botTopRolePosition"
     = Some (JInt (get_role_pos g (Some (top_role (me g)))))
  /\ (forall r, role_id r = guild_id g -> get_role_pos g (Some r) = -1)
  /\ (forall r, role_id r <> guild_id g -> get_role_pos g (Some r) = role_position r)
  /\ (forall r r', role_id r = guild_id g -> role_id r' <> guild_id g ->
                   0 <= role_position r' ->
                   get_role_pos g (Some r) <> get_role_pos g (Some r')).
Proof.
  assert (forall r, role_id r = guild_id g -> get_role_pos g (Some r) = -1) as Hev.
  { intros r Hr. unfold get_role_pos. by rewrite (proj2 (N.eqb_eq _ _) Hr). }
  assert (forall r, role_id r <> guild_id g -> get_role_pos g (Some r) = role_position r)
    as Hreal.
  { intros r Hr. unfold get_role_pos. by rewrite (proj2 (N.eqb_neq _ _) Hr). }
  cbv zeta. split; [unfold get_user_info; vm_compute; reflexivity|].
  split; [unfold get_user_info; vm_compute; reflexivity|].
  split; [exact Hev|]. split; [exact Hreal|].
  intros r r' Hr Hr' Hpos. rewrite (Hev r Hr), (Hreal r' Hr'). lia.
Qed.

Lemma snapshot_role_positions_witness :
  let info := get_user_info (AMember sample_member (Some sample_guild) false)
                sample_channel in
  info !! lit "userTopRolePosition" = Some (JInt (-1))
  /\ info !! lit "botTopRolePosition" = Some (JInt 3)
  /\ get_role_pos sample_guild (Some everyone_role)
     <> get_role_pos sample_guild (Some helper_role).
Proof.
  cbv zeta.
  destruct (snapshot_role_positions sample_member sample_guild false
              (fun m => guild_permissions m)) as (Hu & Hb & Hev & Hreal & Hne).
  split; [|split].
  - unfold sample_channel. rewrite Hu, (Hev (top_role sample_member)); reflexivity.
  - unfold sample_channel. rewrite Hb, (Hreal (top_role (me sample_guild)));
      [reflexivity|].
    vm_compute. discriminate.
  - apply Hne; [reflexivity| |]; vm_compute; discriminate.
Defined.

(* --------------------------------------------------------------------- *)
(** ** The audio client *)
(* --------------------------------------------------------------------- *)

Lemma format_audio_url_app (p : str) :
  format_audio_url p = audio_url_prefix ++ p ++ audio_url_suffix.
Proof. unfold format_audio_url. vm_compute. reflexivity. Qed.

Lemma len_format_audio_url (p : str) : len (format_audio_url p) = len p + 59.
Proof.
  rewrite format_audio_url_app. unfold len. rewrite !length_app.
  change (length audio_url_prefix) with 29%nat.
  change (length audio_url_suffix) with 30%nat. lia.
Qed.

Section Audio.

Variable L : pylib.
Variable W : world.

(** [get_audio_from_text] never raises; it makes one GET when there is a
    URL to fetch and none otherwise. *)
Lemma get_audio_from_text_run (text : str) (tr : trace) :
  get_audio_from_text L W text tr
  = match text with
    | [] => (Ok None, tr)
    | _ :: _ =>
        match audio_url text with
        | Ok (Some url) => (Ok (audio_result L (session_get W tr url)), tr ++ [EGet url])
        | _ => (Ok None, tr)
        end
    end.
Proof.
  unfold get_audio_from_text. destruct text as [|c text]; [reflexivity|].
  rewrite bool_decide_eq_false_2 by discriminate.
  unfold try_except, lift, http_get, audio_result, audio_content_type.
  unfold mbind, IO_bind, mret, IO_ret.
  destruct (audio_url (c :: text)) as [[url|]|e]; [|reflexivity|by destruct e].
  destruct (session_get W tr url) as [r|e]; [|by destruct e].
  destruct (status r =? 200).
  - destruct (str_contains _ _).
    + destruct (body_bytes r) as [[|b bs]|e]; [reflexivity|reflexivity|by destruct e].
    + destruct (body_text r) as [?|e]; [reflexivity|by destruct e].
  - destruct (body_text r) as [?|e]; [reflexivity|by destruct e].
Qed.

(** C8.  Audio bytes are returned only from an answer with status 200
    whose content type, in lower case, contains [audio]; an answer with
    another status or another content type gives [None]. *)
Theorem get_audio_from_text_success_conditions (text : str) (tr : trace) :
  (forall data tr',
     get_audio_from_text L W text tr = (Ok (Some data), tr') ->
     exists url r,
       session_get W tr url = Ok r /\ status r = 200
       /\ audio_content_type L r = true /\ body_bytes r = Ok data)
  /\ (forall url r,
        audio_url text = Ok (Some url) -> session_get W tr url = Ok r ->
        status r <> 200 \/ audio_content_type L r = false ->
        fst (get_audio_from_text L W text tr) = Ok None).
Proof.
  rewrite get_audio_from_text_run. split.
  - intros data tr'. destruct text as [|c text']; [discriminate|].
    destruct (audio_url (c :: text')) as [[url|]|e]; try discriminate.
    unfold audio_result.
    destruct (session_get W tr url) as [r|e] eqn:Hget; [|discriminate].
    destruct (status r =? 200) eqn:Hs; [|discriminate].
    destruct (audio_content_type L r) eqn:Hct; [|discriminate].
    destruct (body_bytes r) as [[|b bs]|e] eqn:Hb; try discriminate.
    intros [= <- _]. exists url, r. apply Z.eqb_eq in Hs. by rewrite Hb.
  - intros url r Hurl Hget Hbad. destruct text as [|c text']; [reflexivity|].
    rewrite Hurl, Hget. unfold audio_result. cbn [fst].
    destruct Hbad as [Hs|Hct].
    + by rewrite (proj2 (Z.eqb_neq _ _) Hs).
    + rewrite Hct. by destruct (status r =? 200).
Qed.

(** C10.  For an empty text nothing is fetched and [None] is returned; an
    answer with status 200 and an audio content type but an empty body
    gives [None]; bytes that are returned are never empty. *)
Theorem get_audio_from_text_never_empty (text : str) (tr : trace) :
  get_audio_from_text L W [] tr = (Ok None, tr)
  /\ (forall url r,
        audio_url text = Ok (Some url) -> session_get W tr url = Ok r ->
        status r = 200 -> audio_content_type L r = true -> body_bytes r = Ok [] ->
        fst (get_audio_from_text L W text tr) = Ok None)
  /\ (forall data tr',
        get_audio_from_text L W text tr = (Ok (Some data), tr') -> data <> []).
Proof.
  split; [by rewrite get_audio_from_text_run|].
  rewrite get_audio_from_text_run. split.
  - intros url r Hurl Hget Hs Hct Hb. destruct text as [|c text']; [reflexivity|].
    rewrite Hurl, Hget. unfold audio_result.
    by rewrite Hs, Hct, Hb.
  - intros data tr'. destruct text as [|c text']; [discriminate|].
    destruct (audio_url (c :: text')) as [[url|]|e]; try discriminate.
    unfold audio_result.
    destruct (session_get W tr url) as [r|e]; [|discriminate].
    destruct (status r =? 200); [|discriminate].
    destruct (audio_content_type L r); [|discriminate].
    destruct (body_bytes r) as [[|b bs]|e]; try discriminate.
    by intros [= <- _].
Qed.

End Audio.

Lemma always_safe_ascii (c : N) : always_safe c = true -> (c <? 128)%N = true.
Proof.
  unfold always_safe. intros H. apply N.ltb_lt.
  repeat (apply orb_true_iff in H as [H|H]);
    repeat (apply andb_true_iff in H as [? H]);
    repeat match goal with
           | H : (_ <=? _)%N = true |- _ => apply N.leb_le in H
           | H : (_ =? _)%N = true |- _ => apply N.eqb_eq in H
           end; lia.
Qed.

(** Text made of letters, digits and [_.-~] is left as it is by [quote]. *)
Lemma quote_unreserved (text : str) :
  Forall (fun c => always_safe c = true) text -> quote text = Ok text.
Proof.
  unfold quote. induction 1 as [|c text Hc Htext IH]; [reflexivity|].
  cbn [utf8_encode]. unfold utf8_encode_char. rewrite (always_safe_ascii c Hc).
  cbn [mbind result_bind] in *.
  destruct (utf8_encode text) as [bs|e]; [|discriminate].
  cbn [mbind result_bind] in *. injection IH as IH.
  cbn [app map concat]. unfold quote_byte at 1. rewrite Hc. cbn [app].
  by rewrite IH.
Qed.

(** On such text the truncation does what it is written for: the URL
    that is fetched fits under the ceiling. *)
Lemma audio_url_unreserved_bound (text url : str) :
  Forall (fun c => always_safe c = true) text ->
  audio_url text = Ok (Some url) -> len url <= max_url_len.
Proof.
  intros Hsafe. unfold audio_url. rewrite (quote_unreserved text Hsafe).
  cbn [mbind result_bind]. unfold max_url_len.
  destruct (len (format_audio_url text) >? 2000) eqn:Hlong.
  - change (2000 - (len AI_AUDIO_API_URL_TEMPLATE - len (lit "{prompt}")) - 50)
      with 1891.
    cbn [Z.leb Z.compare]. rewrite py_slice_prefix by lia.
    rewrite quote_unreserved.
    + cbn [mbind result_bind]. intros [= <-].
      rewrite len_format_audio_url. unfold len. rewrite length_app, length_take.
      change (length (lit "...")) with 3%nat. lia.
    + apply Forall_app. split; [by apply Forall_take|].
      repeat constructor.
  - intros [= <-]. lia.
Qed.

(** C4, on two texts.  A text of 700 spaces has a URL of 2159 characters,
    over the ceiling of 2000; the text is cut at 1891 characters, which
    keeps all of it, the ellipsis is added, and the URL that is fetched is
    2162 characters long.  A sentence repeated up to 1980 characters has a
    URL of 3119 characters; cut at 1891 characters it still gives a URL of
    2983 characters.  The cut is made on the text and the ceiling is on
    the URL, where every space takes three characters. *)
Theorem audio_url_exceeds_ceiling :
  (exists url0 url,
     quote (repeat 32%N 700) = Ok url0 /\ len (format_audio_url url0) = 2159
     /\ audio_url (repeat 32%N 700) = Ok (Some url)
     /\ len url = 2162 /\ max_url_len < len url)
  /\ (exists url0 url,
        quote spoken_text = Ok url0 /\ len (format_audio_url url0) = 3119
        /\ audio_url spoken_text = Ok (Some url)
        /\ len url = 2983 /\ max_url_len < len url).
Proof.
  split.
  - eexists _, _. split; [reflexivity|]. split; [vm_compute; reflexivity|].
    split; [vm_compute; reflexivity|]. split; vm_compute; reflexivity.
  - eexists _, _. split; [vm_compute; reflexivity|]. split; [vm_compute; reflexivity|].
    split; [vm_compute; reflexivity|]. split; vm_compute; reflexivity.
Qed.

Lemma get_audio_from_text_success_conditions_witness :
  let good := quiet_world (Raise ClientError)
                (Ok (audio_response 200 (lit "Audio/MPEG") [Byte.x49; Byte.x44])) in
  let bad := quiet_world (Raise ClientError)
               (Ok (audio_response 200 (lit "text/html") [Byte.x49; Byte.x44])) in
  (get_audio_from_text sample_lib good (lit "hi") []
   = (Ok (Some [Byte.x49; Byte.x44]), [EGet (format_audio_url (lit "hi"))])
   /\ exists url r,
        session_get good [] url = Ok r /\ status r = 200
        /\ audio_content_type sample_lib r = true
        /\ body_bytes r = Ok [Byte.x49; Byte.x44])
  /\ ((status (audio_response 200 (lit "text/html") [Byte.x49; Byte.x44]) <> 200
       \/ audio_content_type sample_lib
            (audio_response 200 (lit "text/html") [Byte.x49; Byte.x44]) = false)
      /\ fst (get_audio_from_text sample_lib bad (lit "hi") []) = Ok None).
Proof.
  cbv zeta. split.
  - assert (get_audio_from_text sample_lib
              (quiet_world (Raise ClientError)
                 (Ok (audio_response 200 (lit "Audio/MPEG") [Byte.x49; Byte.x44])))
              (lit "hi") []
            = (Ok (Some [Byte.x49; Byte.x44]), [EGet (format_audio_url (lit "hi"))]))
      as H by (vm_compute; reflexivity).
    split; [exact H|].
    exact (proj1 (get_audio_from_text_success_conditions sample_lib _ _ _) _ _ H).
  - assert (status (audio_response 200 (lit "text/html") [Byte.x49; Byte.x44]) <> 200
            \/ audio_content_type sample_lib
                 (audio_response 200 (lit "text/html") [Byte.x49; Byte.x44]) = false)
      as H by (right; vm_compute; reflexivity).
    split; [exact H|].
    refine (proj2 (get_audio_from_text_success_conditions sample_lib _ _ _)
              (format_audio_url (lit "hi")) _ _ _ H); vm_compute; reflexivity.
Defined.

Lemma get_audio_from_text_never_empty_witness :
  let silent := quiet_world (Raise ClientError)
                  (Ok (audio_response 200 (lit "audio/mpeg") [])) in
  get_audio_from_text sample_lib silent [] [] = (Ok None, [])
  /\ fst (get_audio_from_text sample_lib silent (lit "hi") []) = Ok None.
Proof.
  cbv zeta.
  destruct (get_audio_from_text_never_empty sample_lib
              (quiet_world (Raise ClientError)
                 (Ok (audio_response 200 (lit "audio/mpeg") [])))
              (lit "hi") []) as (Hempty & Hbody & _).
  split; [exact Hempty|].
  apply (Hbody (format_audio_url (lit "hi"))
           (audio_response 200 (lit "audio/mpeg") [])); vm_compute; reflexivity.
Defined.

(* --------------------------------------------------------------------- *)
(** ** The dispatcher: text and rejection *)
(* --------------------------------------------------------------------- *)

(** Every part is a slice of 1990 characters at a multiple of 1990. *)
Lemma split_parts_chunks (s : str) :
  split_parts s
  = map (fun k => take 1990 (drop (k * 1990) s))
        (seq 0 (Z.to_nat ((len s + 1989) / 1990))).
Proof.
  unfold split_parts, py_range. rewrite map_map.
  replace (len s - 0 + 1990 - 1) with (len s + 1989) by lia.
  apply map_ext. intros k. rewrite py_slice_between by lia.
  f_equal; [|f_equal]; lia.
Qed.

Lemma chunks_concat {A : Type} (c : nat) (n : nat) (l : list A) :
  (length l <= n * c)%nat ->
  concat (map (fun k => take c (drop (k * c) l)) (seq 0 n)) = l.
Proof.
  revert l. induction n as [|n IH]; intros l Hl.
  - destruct l; [reflexivity|cbn in Hl; lia].
  - cbn [seq map concat]. rewrite <- seq_shift, map_map.
    change (0 * c)%nat with 0%nat. rewrite drop_0.
    transitivity (take c l ++ drop c l); [|apply take_drop].
    f_equal.
    transitivity (concat (map (fun k => take c (drop (k * c) (drop c l))) (seq 0 n))).
    + f_equal. apply map_ext. intros k. by rewrite drop_drop.
    + apply IH. rewrite length_drop. lia.
Qed.

(** The parts, put end to end, are the response. *)
Lemma split_parts_concat (s : str) : concat (split_parts s) = s.
Proof.
  rewrite split_parts_chunks. apply chunks_concat. unfold len.
  pose proof (Z.mul_succ_div_gt (Z.of_nat (length s) + 1989) 1990 ltac:(lia)).
  pose proof (Z.div_pos (Z.of_nat (length s) + 1989) 1990 ltac:(lia) ltac:(lia)).
  lia.
Qed.

(** No part is longer than 1990 characters. *)
Lemma split_parts_bound (s : str) :
  Forall (fun p => len p <= 1990) (split_parts s).
Proof.
  rewrite split_parts_chunks. apply Forall_map, Forall_forall. intros k _.
  unfold len. rewrite length_take. lia.
Qed.

Lemma split_parts_4200 (s : str) :
  len s = 4200 ->
  split_parts s = [take 1990 s; take 1990 (drop 1990 s); take 1990 (drop 3980 s)].
Proof.
  intros Hs. rewrite split_parts_chunks, Hs.
  change (Z.to_nat ((4200 + 1989) / 1990)) with 3%nat.
  cbn [seq map]. by rewrite drop_0.
Qed.

Section Dispatcher.

Variable L : pylib.
Variable W : world.

Lemma emit_trace (ev : event) (tr : trace) : snd (emit W ev tr) = tr ++ [ev].
Proof. reflexivity. Qed.

Section Accepted.

Hypothesis accepted : no_faults W.

Lemma emit_ok (ev : event) (tr : trace) : emit W ev tr = (Ok tt, tr ++ [ev]).
Proof. unfold emit. by rewrite accepted. Qed.

Lemma reply_parts_later (parts : list str) (i : Z) (tr : trace) :
  0 < i ->
  reply_parts W i parts tr
  = (Ok tt, tr ++ flat_map (fun q => [EReply q false None; ESleep]) parts).
Proof.
  revert i tr. induction parts as [|p rest IH]; intros i tr Hi.
  - cbn. by rewrite app_nil_r.
  - cbn [reply_parts flat_map]. unfold mbind, IO_bind. rewrite emit_ok.
    unfold sleep. rewrite IH by lia.
    rewrite (proj2 (Z.gtb_lt i 0)) by lia.
    by rewrite <- !app_assoc.
Qed.

Lemma reply_parts_first (parts : list str) (tr : trace) :
  reply_parts W 0 parts tr = (Ok tt, tr ++ chunk_replies parts).
Proof.
  destruct parts as [|p rest].
  - cbn. by rewrite app_nil_r.
  - cbn [reply_parts chunk_replies]. unfold mbind, IO_bind. rewrite emit_ok.
    unfold sleep. rewrite reply_parts_later by lia.
    cbn [Z.gtb Z.compare]. by rewrite <- !app_assoc.
Qed.

(** A response of more than 2000 characters goes out in parts, each by
    [message.reply]. *)
Lemma send_text_long (s : str) (tr : trace) :
  2000 < len s ->
  send_text W s tr = (Ok tt, tr ++ chunk_replies (split_parts s)).
Proof.
  intros Hs. unfold send_text. rewrite (proj2 (Z.gtb_lt _ _)) by lia.
  apply reply_parts_first.
Qed.

Lemma send_text_short (s : str) (tr : trace) :
  len s <= 2000 ->
  send_text W s tr = (Ok tt, tr ++ [EReply s false None]).
Proof.
  intros Hs. unfold send_text.
  destruct (len s >? 2000) eqn:Hgt; [apply Z.gtb_lt in Hgt; lia|].
  apply emit_ok.
Qed.

End Accepted.

Lemma dispatch_text (s : str) (code : option str) :
  dispatch L W s (lit "text") code = send_text W s.
Proof. reflexivity. Qed.

Lemma dispatch_rejection (s : str) (code : option str) :
  dispatch L W s (lit "rejection") code = send_text W s.
Proof. reflexivity. Qed.

(** C3.  A text response of at most 2000 characters is sent as one reply
    with that very string.  A text response of 4200 characters is split
    into three parts, none longer than 1990 characters, which put end to
    end are the response; when Discord accepts what is sent, the three
    parts go out in order, each as one reply. *)
Theorem dispatch_text_chunking (s : str) (code : option str) (tr : trace) :
  (len s <= 2000 ->
   snd (dispatch L W s (lit "text") code tr) = tr ++ [EReply s false None])
  /\ (len s = 4200 ->
      exists p1 p2 p3,
        split_parts s = [p1; p2; p3]
        /\ len p1 <= 1990 /\ len p2 <= 1990 /\ len p3 <= 1990
        /\ p1 ++ p2 ++ p3 = s
        /\ (no_faults W ->
            dispatch L W s (lit "text") code tr
            = (Ok tt, tr ++ [EReply p1 true None; ESleep;
                             EReply p2 false None; ESleep;
                             EReply p3 false None; ESleep]))).
Proof.
  rewrite dispatch_text. split.
  - intros Hs. unfold send_text.
    destruct (len s >? 2000) eqn:Hgt; [apply Z.gtb_lt in Hgt; lia|].
    apply emit_trace.
  - intros Hs. eexists _, _, _. split; [by apply split_parts_4200|].
    split; [|split; [|split; [|split]]].
    + unfold len. rewrite length_take. lia.
    + unfold len. rewrite length_take. lia.
    + unfold len. rewrite length_take. lia.
    + pose proof (split_parts_concat s) as Hc.
      rewrite split_parts_4200 in Hc by done. cbn [concat] in Hc.
      by rewrite app_nil_r in Hc.
    + intros Hok. rewrite (send_text_long Hok s tr) by lia.
      by rewrite split_parts_4200.
Qed.

End Dispatcher.

Lemma quiet_world_no_faults (post get : result http_response) :
  no_faults (quiet_world post get).
Proof. intros tr ev. reflexivity. Qed.

Lemma dispatch_text_chunking_witness :
  (len (lit "Granted.") <= 2000
   /\ snd (dispatch sample_lib calm_world (lit "Granted.") (lit "text") None [])
      = [EReply (lit "Granted.") false None])
  /\ (len (repeat 97%N 4200) = 4200
      /\ exists p1 p2 p3,
           split_parts (repeat 97%N 4200) = [p1; p2; p3]
           /\ len p1 <= 1990 /\ len p2 <= 1990 /\ len p3 <= 1990
           /\ p1 ++ p2 ++ p3 = repeat 97%N 4200
           /\ dispatch sample_lib calm_world (repeat 97%N 4200) (lit "text") None []
              = (Ok tt, [EReply p1 true None; ESleep;
                         EReply p2 false None; ESleep;
                         EReply p3 false None; ESleep])).
Proof.
  split.
  - split; [vm_compute; discriminate|].
    apply (proj1 (dispatch_text_chunking sample_lib calm_world (lit "Granted.") None [])).
    vm_compute. discriminate.
  - split; [vm_compute; reflexivity|].
    destruct (proj2 (dispatch_text_chunking sample_lib calm_world (repeat 97%N 4200)
                       None []) eq_refl)
      as (p1 & p2 & p3 & Hparts & H1 & H2 & H3 & Hcat & Hrun).
    exists p1, p2, p3. repeat split; try assumption.
    apply Hrun, quiet_world_no_faults.
Defined.

Lemma chunk_replies_no_send (parts : list str) :
  Forall (fun ev => is_send ev = false) (chunk_replies parts).
Proof.
  destruct parts as [|p rest]; [constructor|].
  cbn [chunk_replies]. repeat (constructor; [reflexivity|]).
  induction rest as [|q rest IH]; cbn [flat_map app]; [constructor|].
  by repeat (constructor; [reflexivity|]).
Qed.

Lemma split_parts_length (s : str) :
  length (split_parts s) = Z.to_nat ((len s + 1989) / 1990).
Proof. by rewrite split_parts_chunks, length_map, length_seq. Qed.

Lemma split_parts_several (s : str) :
  2000 < len s -> (2 <= length (split_parts s))%nat.
Proof.
  intros Hs. rewrite split_parts_length.
  pose proof (Z.div_le_mono 3980 (len s + 1989) 1990 ltac:(lia) ltac:(lia)) as H.
  change (3980 / 1990) with 2 in H. lia.
Qed.

(** C6, as the code has it.  A text or rejection response of more than
    2000 characters is sent in two parts or more, every part by
    [message.reply], each followed by the pause; the first reply mentions
    the author and the later ones do not; no part is a plain send to the
    channel. *)
Theorem long_response_parts_are_replies (L : pylib) (W : world)
    (s response_type : str) (code : option str) (tr : trace) :
  no_faults W ->
  response_type = lit "text" \/ response_type = lit "rejection" ->
  2000 < len s ->
  dispatch L W s response_type code tr = (Ok tt, tr ++ chunk_replies (split_parts s))
  /\ (2 <= length (split_parts s))%nat
  /\ Forall (fun ev => is_send ev = false) (chunk_replies (split_parts s)).
Proof.
  intros Hok Hty Hs. split; [|split].
  - destruct Hty as [->| ->].
    + rewrite dispatch_text. by apply send_text_long.
    + rewrite dispatch_rejection. by apply send_text_long.
  - by apply split_parts_several.
  - apply chunk_replies_no_send.
Qed.

Lemma long_response_parts_are_replies_witness :
  (no_faults calm_world /\ 2000 < len (repeat 97%N 2001))
  /\ dispatch sample_lib calm_world (repeat 97%N 2001) (lit "rejection") None []
     = (Ok tt, chunk_replies (split_parts (repeat 97%N 2001)))
  /\ (2 <= length (split_parts (repeat 97%N 2001)))%nat.
Proof.
  assert (2000 < len (repeat 97%N 2001)) as Hlen by (vm_compute; reflexivity).
  split; [split; [apply quiet_world_no_faults|exact Hlen]|].
  destruct (long_response_parts_are_replies sample_lib calm_world (repeat 97%N 2001)
              (lit "rejection") None [] (quiet_world_no_faults _ _)
              (or_intror eq_refl) Hlen) as (Hrun & Hmany & _).
  split; [exact Hrun|exact Hmany].
Defined.

(** C6, as the specification words it, fails on a response of 2001
    characters: its second part, the last 11 characters, goes out by
    [message.reply] and not by a send to the channel. *)
Lemma later_part_is_a_reply :
  snd (dispatch sample_lib calm_world (repeat 97%N 2001) (lit "text") None [])
  = [EReply (repeat 97%N 1990) true None; ESleep;
     EReply (repeat 97%N 11) false None; ESleep]
  /\ snd (dispatch sample_lib calm_world (repeat 97%N 2001) (lit "text") None [])
     <> reply_then_sends (split_parts (repeat 97%N 2001)).
Proof.
  split; [vm_compute; reflexivity|].
  intros H. vm_compute in H. discriminate H.
Qed.

(* --------------------------------------------------------------------- *)
(** ** The dispatcher: code *)
(* --------------------------------------------------------------------- *)

Lemma str_join_cons (sep l : str) (l' : str) (ls : list str) :
  str_join sep (l :: l' :: ls) = l ++ sep ++ str_join sep (l' :: ls).
Proof. reflexivity. Qed.

Lemma str_join_snoc (sep l : str) (ls : list str) (z : str) :
  str_join sep ((l :: ls) ++ [z]) = str_join sep (l :: ls) ++ sep ++ z.
Proof.
  revert l. induction ls as [|l' ls IH]; intros l; [reflexivity|].
  change ((l :: l' :: ls) ++ [z]) with (l :: ((l' :: ls) ++ [z])).
  change ((l' :: ls) ++ [z]) with (l' :: (ls ++ [z])) at 1.
  rewrite !str_join_cons. change (l' :: ls ++ [z]) with ((l' :: ls) ++ [z]).
  rewrite IH. by rewrite <- !app_assoc.
Qed.

Lemma str_startswith_app (p a b : str) :
  str_startswith p a = true -> str_startswith p (a ++ b) = true.
Proof.
  revert a. induction p as [|c p IH]; intros a H; [reflexivity|].
  destruct a as [|c' a]; [discriminate|]. cbn in *.
  apply andb_true_iff in H as [-> H]. by rewrite IH.
Qed.

Lemma str_lstrip_solid (c : N) (s : str) :
  isspace c = false -> str_lstrip (c :: s) = c :: s.
Proof. intros H. cbn. by rewrite H. Qed.

(** Text that begins and ends with the delimiter has nothing to strip. *)
Lemma str_strip_fenced (body : str) :
  str_startswith fence body = true -> str_strip (body ++ fence) = body ++ fence.
Proof.
  intros H. unfold str_strip, str_rstrip.
  destruct body as [|c body]; [discriminate|].
  assert (isspace c = false) as Hc.
  { cbn in H. apply andb_true_iff in H as [H _]. apply N.eqb_eq in H. by subst c. }
  change ((c :: body) ++ fence) with (c :: (body ++ fence)).
  rewrite str_lstrip_solid by done.
  change (c :: (body ++ fence)) with ((c :: body) ++ fence).
  rewrite rev_app_distr.
  change (rev fence) with (96%N :: [96; 96]%N). cbn [app].
  rewrite str_lstrip_solid by reflexivity.
  change (96%N :: 96%N :: 96%N :: rev (c :: body)) with (rev fence ++ rev (c :: body)).
  by rewrite <- rev_app_distr, rev_involutive.
Qed.

Lemma splitlines_from_line (cur l rest : str) :
  single_line l ->
  splitlines_from cur (l ++ rest) = splitlines_from (rev l ++ cur) rest.
Proof.
  intros Hl. revert cur. induction Hl as [|c l Hc Hl IH]; intros cur; [reflexivity|].
  cbn [app splitlines_from]. rewrite Hc, IH. cbn [rev]. by rewrite <- app_assoc.
Qed.

Lemma splitlines_from_newline (cur rest : str) :
  splitlines_from cur (10%N :: rest) = rev cur :: splitlines_from [] rest.
Proof. by destruct rest. Qed.

(** Lines joined by line feeds are split into the same lines again. *)
Lemma splitlines_join (lines : list str) (z : str) :
  Forall single_line lines -> single_line z -> z <> [] ->
  str_splitlines (str_join [10%N] (lines ++ [z])) = lines ++ [z].
Proof.
  intros Hlines Hz Hne. unfold str_splitlines.
  induction Hlines as [|l lines Hl Hlines IH].
  - cbn [app str_join]. rewrite <- (app_nil_r z) at 1.
    rewrite splitlines_from_line by done. rewrite app_nil_r.
    cbn [splitlines_from]. destruct (rev z) eqn:Hrev.
    + apply (f_equal (@rev N)) in Hrev. rewrite rev_involutive in Hrev. by destruct Hne.
    + by rewrite <- Hrev, rev_involutive.
  - destruct lines as [|l' lines].
    + cbn [app str_join] in *. rewrite splitlines_from_line by done.
      rewrite app_nil_r. cbn [app]. rewrite splitlines_from_newline.
      by rewrite IH, rev_involutive.
    + change ((l :: l' :: lines) ++ [z]) with (l :: l' :: (lines ++ [z])).
      rewrite str_join_cons, splitlines_from_line by done.
      rewrite app_nil_r. cbn [app]. rewrite splitlines_from_newline.
      change (l' :: lines ++ [z]) with ((l' :: lines) ++ [z]).
      by rewrite IH, rev_involutive.
Qed.

Lemma fence_single_line : single_line fence.
Proof. by repeat constructor. Qed.

(** The cleanup of a fenced block: the two delimiter lines go, the
    interior lines are joined again and the whole is stripped. *)
Lemma clean_code_fenced (opening : str) (interior : list str) :
  str_startswith fence opening = true ->
  single_line opening -> Forall single_line interior ->
  clean_code (fenced_block opening interior)
  = Ok (str_strip (str_join [10%N] interior)).
Proof.
  intros Hopen Hline Hinterior. unfold clean_code, fenced_block.
  assert (str_strip (str_join [10%N] (opening :: interior ++ [fence]))
          = str_join [10%N] (opening :: interior ++ [fence])) as Hstrip.
  { change (opening :: interior ++ [fence]) with ((opening :: interior) ++ [fence]).
    rewrite str_join_snoc, app_assoc. apply str_strip_fenced.
    apply str_startswith_app.
    destruct interior; [done|]. rewrite str_join_cons. by apply str_startswith_app. }
  rewrite Hstrip.
  assert (str_startswith fence (str_join [10%N] (opening :: interior ++ [fence])) = true)
    as Hstart.
  { destruct (interior ++ [fence]) eqn:E; [by destruct interior|].
    rewrite str_join_cons. by apply str_startswith_app. }
  rewrite Hstart.
  change (opening :: interior ++ [fence]) with ((opening :: interior) ++ [fence]).
  rewrite splitlines_join; [|by constructor|apply fence_single_line|discriminate].
  cbn [app first_line mbind result_bind]. rewrite Hopen.
  unfold last_line. change (opening :: interior ++ [fence])
    with ((opening :: interior) ++ [fence]).
  rewrite last_snoc. cbn [mbind result_bind]. rewrite str_eqb_refl.
  cbn [mbind result_bind app]. by rewrite py_slice_inner.
Qed.

(** C5, as the code has it.  For a code string that is a fenced block (an
    opening line that starts with the delimiter, interior lines, the
    closing delimiter line), the cleanup removes the two delimiter lines
    and returns the interior lines, in order and joined by line feeds,
    with the white space at the two ends of that text stripped; when
    nothing is left, the dispatcher sends the one notice and invokes
    nothing. *)
Theorem fenced_code_cleanup (L : pylib) (W : world) (opening : str)
    (interior : list str) (response_text : str) (tr : trace) :
  str_startswith fence opening = true ->
  single_line opening -> Forall single_line interior ->
  clean_code (fenced_block opening interior)
  = Ok (str_strip (str_join [10%N] interior))
  /\ (str_strip (str_join [10%N] interior) = [] ->
      snd (dispatch L W response_text (lit "code")
             (Some (fenced_block opening interior)) tr)
      = tr ++ [EReply (notice_empty_code response_text) false None]).
Proof.
  intros Hopen Hline Hinterior.
  pose proof (clean_code_fenced opening interior Hopen Hline Hinterior) as Hclean.
  split; [exact Hclean|]. intros Hempty.
  change (dispatch L W response_text (lit "code") (Some (fenced_block opening interior)))
    with (run_code W response_text (Some (fenced_block opening interior))).
  unfold run_code.
  destruct (fenced_block opening interior) as [|c rest] eqn:Hblock.
  - unfold fenced_block in Hblock. destruct opening; [discriminate|].
    destruct (interior ++ [fence]) eqn:E; [by destruct interior|]. discriminate.
  - unfold mbind, IO_bind, lift. rewrite Hclean, Hempty. reflexivity.
Qed.

Lemma fenced_code_cleanup_witness :
  (str_startswith fence (lit "```python") = true
   /\ single_line (lit "```python")
   /\ Forall single_line [lit "x = 1"; lit "await ctx.send(x)"])
  /\ clean_code (fenced_block (lit "```python") [lit "x = 1"; lit "await ctx.send(x)"])
     = Ok (lit "x = 1" ++ [10%N] ++ lit "await ctx.send(x)")
  /\ snd (dispatch sample_lib calm_world (lit "On it.") (lit "code")
            (Some (fenced_block fence [lit "  "])) [])
     = [EReply (notice_empty_code (lit "On it.")) false None].
Proof.
  assert (single_line (lit "```python")) as H1 by (by repeat constructor).
  assert (Forall single_line [lit "x = 1"; lit "await ctx.send(x)"]) as H2
    by (by repeat constructor).
  assert (Forall single_line [lit "  "]) as H3 by (by repeat constructor).
  split; [by repeat split|]. split.
  - rewrite (proj1 (fenced_code_cleanup sample_lib calm_world (lit "```python")
                      [lit "x = 1"; lit "await ctx.send(x)"] [] []
                      eq_refl H1 H2)).
    vm_compute. reflexivity.
  - apply (proj2 (fenced_code_cleanup sample_lib calm_world fence [lit "  "]
                    (lit "On it.") [] eq_refl fence_single_line H3)).
    vm_compute. reflexivity.
Defined.

(** C5, as the specification words it, fails on a block whose first
    interior line is indented: the indentation of that line is lost. *)
Lemma indented_first_line_is_changed :
  clean_code (fenced_block (lit "```python") [lit "    x = 1"; lit "    y = 2"])
  = Ok (lit "x = 1" ++ [10%N] ++ lit "    y = 2")
  /\ clean_code (fenced_block (lit "```python") [lit "    x = 1"; lit "    y = 2"])
     <> Ok (str_join [10%N] [lit "    x = 1"; lit "    y = 2"]).
Proof.
  split; [vm_compute; reflexivity|].
  intros H. vm_compute in H. discriminate H.
Qed.

(* --------------------------------------------------------------------- *)
(** ** The request pipeline *)
(* --------------------------------------------------------------------- *)

Lemma resolves_snapshot (author : Author) (channel : Channel) :
  resolves author channel = false -> get_user_info author channel = ∅.
Proof.
  destruct author as [m [g|] b|id b], channel as [pf|]; try reflexivity.
  discriminate.
Qed.

(** A member of the guild writing in a channel of the guild always gets a
    snapshot, so the request goes on to the completion call. *)
Lemma resolves_snapshot_truthy (author : Author) (channel : Channel) :
  resolves author channel = true ->
  dict_falsy (get_user_info author channel) = false.
Proof.
  destruct author as [m [g|] b|id b], channel as [pf|]; try discriminate.
  intros _. apply snapshot_truthy.
Qed.

(** The fields that lines 493-496 read from a validated payload are
    there, and are strings. *)
Lemma payload_shape_fields (d : dict) (dr df dt : str) :
  payload_shape d ->
  exists r f t c,
    field_str d (lit "response") dr = Ok r
    /\ field_str d (lit "feedback") df = Ok f
    /\ field_str d (lit "type") dt = Ok t
    /\ field_code d = Ok c
    /\ t ∈ response_tags
    /\ (t = lit "code" -> exists code, c = Some code /\ str_strip code <> [])
    /\ (t <> lit "code" -> c = None).
Proof.
  intros ([r Hr] & [f Hf] & [t (Ht & Hin & Hiff & Hcode)]).
  unfold field_str, field_code. rewrite Hr, Hf, Ht.
  destruct (decide (t = lit "code")) as [Heq|Hne].
  - destruct (Hcode Heq) as [c [Hc Hs]]. rewrite Hc.
    exists r, f, t, (Some c). repeat split; try done. by exists c.
  - destruct (d !! lit "code") as [v|] eqn:Hc.
    + destruct Hne. apply Hiff. by exists v.
    + exists r, f, t, None. repeat split; try done.
Qed.

(** A validated payload is not the empty dict. *)
Lemma payload_shape_truthy (d : dict) : payload_shape d -> dict_falsy d = false.
Proof.
  intros ([r Hr] & _). unfold dict_falsy. apply Nat.eqb_neq. intros Hsize.
  apply map_size_empty_iff in Hsize. subst d. by rewrite lookup_empty in Hr.
Qed.

(** With a snapshot and a payload, the request is the completion call
    followed by the dispatch of the payload's fields; reading the fields
    never raises. *)
Lemma process_request_dispatch (L : pylib) (W : world) (template : str)
    (author : Author) (channel : Channel) (msg : str) (tr : trace) (d : dict) :
  resolves author channel = true ->
  completion_result L
    (session_post W tr AI_TEXT_API_URL
       (request_payload L template msg (get_user_info author channel)))
  = Some d ->
  exists r t c,
    field_str d (lit "response") (lit "I seem to be speechless.") = Ok r
    /\ field_str d (lit "type") (lit "text") = Ok t
    /\ field_code d = Ok c
    /\ process_request L W template author channel msg tr
       = try_except (dispatch L W r t c) (on_dispatch_error W)
           (tr ++ [EPost AI_TEXT_API_URL
                     (request_payload L template msg (get_user_info author channel))]).
Proof.
  intros Hres Hd. pose proof (completion_result_shape L _ d Hd) as Hshape.
  destruct (payload_shape_fields d (lit "I seem to be speechless.")
              (lit "No feedback provided.") (lit "text") Hshape)
    as (r & f & t & c & Hr & Hf & Ht & Hc & _).
  exists r, t, c. repeat split; try done.
  unfold process_request. rewrite (resolves_snapshot_truthy author channel Hres).
  unfold mbind at 1. unfold IO_bind. rewrite call_ai_api_run, Hd.
  rewrite (payload_shape_truthy d Hshape).
  unfold mbind, IO_bind, lift. by rewrite Hr, Hf, Ht, Hc.
Qed.

(** C7.  For an author and a channel that are not a member of a guild and
    a channel of a guild, [get_user_info] returns the empty dict, and the
    request that called it ends there: it sends the one apology, as a
    reply, and the completion endpoint is never called. *)
Theorem unresolved_author_gets_one_apology (L : pylib) (W : world) (template : str)
    (author : Author) (channel : Channel) (user_message_content : str) (tr : trace) :
  resolves author channel = false ->
  get_user_info author channel = ∅
  /\ process_request L W template author channel user_message_content tr
     = reply W apology_context tr
  /\ snd (process_request L W template author channel user_message_content tr)
     = tr ++ [EReply apology_context false None].
Proof.
  intros H. pose proof (resolves_snapshot author channel H) as Hinfo.
  assert (process_request L W template author channel user_message_content tr
          = reply W apology_context tr) as Hrun.
  { unfold process_request. by rewrite Hinfo. }
  split; [exact Hinfo|]. split; [exact Hrun|]. by rewrite Hrun.
Qed.

Lemma unresolved_author_gets_one_apology_witness :
  resolves (AUser 77 false) sample_channel = false
  /\ get_user_info (AUser 77 false) sample_channel = ∅
  /\ snd (process_request sample_lib calm_world sample_template (AUser 77 false)
            sample_channel (lit "who am I?") [ETyping])
     = [ETyping; EReply apology_context false None].
Proof.
  destruct (unresolved_author_gets_one_apology sample_lib calm_world sample_template
              (AUser 77 false) sample_channel (lit "who am I?") [ETyping] eq_refl)
    as (Hinfo & _ & Htrace).
  split; [reflexivity|]. split; [exact Hinfo|exact Htrace].
Defined.

(* --------------------------------------------------------------------- *)
(** ** The handler on whole messages *)
(* --------------------------------------------------------------------- *)

(** A text payload is sent back as one reply, after the typing indicator
    and the completion call. *)
Example on_message_text :
  map is_post (snd (on_message sample_lib (answering "A") sample_template
                      (guild_message (lit "Metarunx, say hi")) []))
  = [false; true; false]
  /\ filter (fun ev => is_post ev = false)
       (snd (on_message sample_lib (answering "A") sample_template
               (guild_message (lit "Metarunx, say hi")) []))
     = [ETyping; EReply (lit "hi") false None].
Proof. split; vm_compute; reflexivity. Qed.

(** An audio payload with a stray [code] key: the text, then the file. *)
Example on_message_audio :
  filter (fun ev => is_post ev = false)
    (snd (on_message sample_lib (answering "E") sample_template
            (guild_message (lit "Metarunx, say hi")) []))
  = [ETyping; EReply (lit "hi") false None; EGet (format_audio_url (lit "hi"));
     ESendFile [Byte.x49; Byte.x44; Byte.x33] (lit "metarunx_response.mp3")].
Proof. vm_compute. reflexivity. Qed.

(** Any failure of the completion call: the one generic apology. *)
Example on_message_failures :
  Forall
    (fun o =>
       filter (fun ev => is_post ev = false)
         (snd (on_message sample_lib (quiet_world o (Raise ClientError)) sample_template
                 (guild_message (lit "Metarunx, say hi")) []))
       = [ETyping; EReply apology_ai false None])
    sample_failures.
Proof. repeat apply Forall_cons_2; try apply Forall_nil_2; vm_compute; reflexivity. Qed.

(** A member object without a guild reaches the snapshot step and gets
    the apology of that step; nothing is posted. *)
Example on_message_orphan :
  on_message sample_lib (answering "A") sample_template orphan_message []
  = (Ok tt, [ETyping; EReply apology_context false None]).
Proof. vm_compute. reflexivity. Qed.

(** A message outside a guild is dropped before the snapshot step (lines
    431-433): nothing is sent at all. *)
Example on_message_direct :
  on_message sample_lib (answering "A") sample_template direct_message [] = (Ok tt, []).
Proof. vm_compute. reflexivity. Qed.

(** The bot addressed with nothing to say. *)
Example on_message_bare_trigger :
  on_message sample_lib (answering "A") sample_template
    (guild_message (lit "metarunx,  ")) []
  = (Ok tt, [EReply (lit "Yes? You addressed me.") false (Some 10)]).
Proof. vm_compute. reflexivity. Qed.

(** A message that does not address the bot goes to the command
    processor. *)
Example on_message_other :
  on_message sample_lib (answering "A") sample_template
    (guild_message (lit "hello world")) []
  = (Ok tt, [EProcessCommands]).
Proof. vm_compute. reflexivity. Qed.

(** A code payload in a fenced block: the acknowledgment, then the
    cleaned code handed to the Jishaku command. *)
Example on_message_code :
  filter (fun ev => is_post ev = false)
    (snd (on_message sample_lib (answering "F") sample_template
            (guild_message (lit "Metarunx, count the members")) []))
  = [ETyping; EReply (lit "On it.") false None;
     EInvoke (lit "await ctx.send(1)" ++ [10%N] ++ lit "    await ctx.send(2)")].
Proof. vm_compute. reflexivity. Qed.

(* ===================================================================== *)
(** * Further properties *)
(* ===================================================================== *)

(* --------------------------------------------------------------------- *)
(** ** The snapshot *)
(* --------------------------------------------------------------------- *)

Lemma lit_inj (a b : string) : lit a = lit b -> a = b.
Proof.
  unfold lit. intros H.
  rewrite <- (string_of_list_ascii_of_string a), <- (string_of_list_ascii_of_string b).
  f_equal. revert H. generalize (list_ascii_of_string a) (list_ascii_of_string b).
  induction l as [|x l IH]; intros [|y l'] H; try discriminate; [done|].
  injection H as Hxy Hl. f_equal; [|by apply IH].
  by rewrite <- (ascii_N_embedding x), <- (ascii_N_embedding y), Hxy.
Qed.

(** Two ids print the same only if they are the same. *)
Lemma str_of_N_inj (a b : N) : str_of_N a = str_of_N b -> a = b.
Proof.
  unfold str_of_N. intros H. apply lit_inj in H.
  assert (Some (N.to_uint a) = Some (N.to_uint b)) as Hu
    by (by rewrite <- !NilEmpty.usu, H).
  injection Hu as Hu.
  by rewrite <- (DecimalN.Unsigned.of_to a), <- (DecimalN.Unsigned.of_to b), Hu.
Qed.

(** X1.  The snapshot is empty exactly for the pairs that do not resolve, and
    has the same eighteen keys for every pair that does. *)
Theorem snapshot_schema (author : Author) (channel : Channel) :
  (resolves author channel = false -> get_user_info author channel = ∅)
  /\ (resolves author channel = true ->
      forall k, is_Some (get_user_info author channel !! k) <-> k ∈ snapshot_keys).
Proof.
  split; [apply resolves_snapshot|].
  destruct author as [m' [g'|] b'|id b'], channel as [pf'|]; try discriminate.
  intros _ k. unfold get_user_info. rewrite <- elem_of_dom, dom_list_to_map_L.
  cbn [map fst]. unfold snapshot_keys. set_solver.
Qed.

Ltac snapshot_lookup := unfold get_user_info; vm_compute; reflexivity.

Section Snapshot.

Variables (m : Member) (g : Guild) (b : bool) (pf : Member -> Permissions).

Let info : dict := get_user_info (AMember m (Some g) b) (GuildChannel pf).

Lemma info_serverId : info !! lit "serverId" = Some (JStr (str_of_N (guild_id g))).
Proof. subst info. snapshot_lookup. Qed.

Lemma info_userTopRoleId :
  info !! lit "userTopRoleId"
  = Some (JStr (if negb (is_everyone g (top_role m))
                then str_of_N (role_id (top_role m))
                else str_of_N (guild_id g))).
Proof. subst info. snapshot_lookup. Qed.

Lemma info_userTopRoleName :
  info !! lit "userTopRoleName"
  = Some (JStr (if negb (is_everyone g (top_role m))
                then role_name (top_role m)
                else lit "@everyone")).
Proof. subst info. snapshot_lookup. Qed.

Lemma info_userRoles :
  info !! lit "userRoles"
  = Some (JList (map (fun r => JStr (role_name r))
                   (filter (fun r => is_everyone g r = false) (roles m)))).
Proof. subst info. snapshot_lookup. Qed.

Lemma info_userRoleIds :
  info !! lit "userRoleIds"
  = Some (JList (map (fun r => JStr (str_of_N (role_id r)))
                   (filter (fun r => is_everyone g r = false) (roles m)))).
Proof. subst info. snapshot_lookup. Qed.

(** X2.  The three fields on the top role agree with one another: when the
    member holds no role but the baseline one, the id is the guild's, the
    name is [@everyone] and the position is -1; otherwise all three are
    the role's own.  The id equals [serverId] in the first case only. *)
Theorem snapshot_top_role_fields :
  (role_id (top_role m) = guild_id g ->
   info !! lit "userTopRoleId" = Some (JStr (str_of_N (guild_id g)))
   /\ info !! lit "userTopRoleName" = Some (JStr (lit "@everyone"))
   /\ info !! lit "userTopRolePosition" = Some (JInt (-1)))
  /\ (role_id (top_role m) <> guild_id g ->
      info !! lit "userTopRoleId" = Some (JStr (str_of_N (role_id (top_role m))))
      /\ info !! lit "userTopRoleName" = Some (JStr (role_name (top_role m)))
      /\ info !! lit "userTopRolePosition" = Some (JInt (role_position (top_role m))))
  /\ (info !! lit "userTopRoleId" = info !! lit "serverId"
      <-> role_id (top_role m) = guild_id g).
Proof.
  assert (info !! lit "userTopRolePosition"
          = Some (JInt (get_role_pos g (Some (top_role m))))) as Hpos
    by (subst info; snapshot_lookup).
  rewrite info_userTopRoleId, info_userTopRoleName, info_serverId, Hpos.
  unfold get_role_pos, is_everyone.
  destruct (N.eqb_spec (role_id (top_role m)) (guild_id g)) as [Heq|Hne]; cbn [negb].
  - split; [intros _; by repeat split|]. split; [intros Hne; by destruct Hne|].
    split; [intros _; exact Heq|reflexivity].
  - split; [intros Heq; by destruct Hne|]. split; [intros _; by repeat split|].
    split; [|intros Heq; by destruct Hne].
    intros [= H]. by apply str_of_N_inj in H.
Qed.

(** X3.  The role names and the role ids of the snapshot go together: the two
    lists have the same length, which is at most the number of roles of
    the member; the guild's own id, which is the id of the baseline role,
    is never among the ids, and the id of every other role of the member
    is. *)
Theorem snapshot_roles_aligned :
  exists names ids,
    info !! lit "userRoles" = Some (JList names)
    /\ info !! lit "userRoleIds" = Some (JList ids)
    /\ length names = length ids
    /\ (length ids <= length (roles m))%nat
    /\ (JStr (str_of_N (guild_id g)) ∉ ids)
    /\ (forall r, r ∈ roles m ->
                   role_id r = guild_id g \/ (JStr (str_of_N (role_id r)) ∈ ids)).
Proof.
  eexists _, _. split; [apply info_userRoles|]. split; [apply info_userRoleIds|].
  split; [by rewrite !length_map|]. split; [rewrite length_map; apply length_filter|].
  split.
  - intros H. apply list_elem_of_fmap in H as (r & Hr & Hin).
    apply list_elem_of_filter in Hin as [Hev _]. injection Hr as Hr.
    apply str_of_N_inj in Hr. unfold is_everyone in Hev.
    apply N.eqb_neq in Hev. congruence.
  - intros r Hr. destruct (N.eqb_spec (role_id r) (guild_id g)) as [Heq|Hne];
      [by left|right].
    apply list_elem_of_fmap. exists r. split; [done|].
    apply list_elem_of_filter. split; [|done]. unfold is_everyone. by apply N.eqb_neq.
Qed.

End Snapshot.

(* --------------------------------------------------------------------- *)
(** ** The completion client, further *)
(* --------------------------------------------------------------------- *)

(** X4.  [call_ai_api] never raises and makes exactly one request, a POST to
    the completion endpoint, whatever the network does. *)
Theorem call_ai_api_never_raises (L : pylib) (W : world) (template msg : str)
    (info : dict) (tr : trace) :
  exists r,
    call_ai_api L W template msg info tr
    = (Ok r, tr ++ [EPost AI_TEXT_API_URL (request_payload L template msg info)]).
Proof. eexists. apply call_ai_api_run. Qed.

(** X5.  [call_ai_api] returns nothing if and only if the answer of the
    endpoint is one of the failures: there is no other way to get [None],
    and no failure that lets a payload through. *)
Theorem call_ai_api_none_iff_failure (L : pylib) (W : world) (template msg : str)
    (info : dict) (tr : trace) :
  fst (call_ai_api L W template msg info tr) = Ok None
  <-> completion_failure L
        (session_post W tr AI_TEXT_API_URL (request_payload L template msg info)).
Proof.
  rewrite call_ai_api_run. cbn [fst]. split.
  - intros [= H]. by apply completion_result_none.
  - intros H. by rewrite (completion_failure_result L _ H).
Qed.

Lemma validate_origin (L : pylib) (v : json) (d : dict) :
  validate_content L v = Ok (Some d) ->
  exists d0, py_json_loads L v = Ok (JDict d0)
             /\ (d = d0 \/ (d = delete (lit "code") d0 /\ tag_of d0 <> lit "code")).
Proof.
  unfold validate_content. destruct (py_json_loads L v) as [p|e]; [|discriminate].
  cbn [mbind result_bind].
  destruct p as [| | | | | |d0]; try discriminate.
  destruct (_ && _); [|discriminate].
  destruct (str_eqb (tag_of d0) (lit "code")) eqn:Hcode.
  - destruct (code_unusable d0); [discriminate|]. intros [= <-]. eauto.
  - assert (tag_of d0 <> lit "code") as Hne.
    { intros H. apply str_eqb_eq in H. congruence. }
    destruct (bool_decide _); intros [= <-]; eauto.
Qed.

(** X6.  A payload that is returned comes from an answer with status 200 whose
    body decodes to an envelope with a non-empty content string, which
    decodes to an object; the payload is that object, every key of it
    kept as it was (also keys the validation does not know), save for a
    [code] key under a type other than [code], which is deleted. *)
Theorem call_ai_api_success_origin (L : pylib) (W : world) (template msg : str)
    (info : dict) (tr tr' : trace) (d : dict) :
  call_ai_api L W template msg info tr = (Ok (Some d), tr') ->
  exists r t w s d0,
    session_post W tr AI_TEXT_API_URL (request_payload L template msg info) = Ok r
    /\ status r = 200 /\ body_text r = Ok t
    /\ json_loads L t = Ok w /\ envelope_content w = Some s /\ s <> []
    /\ json_loads L s = Ok (JDict d0)
    /\ (forall k, k <> lit "code" -> d !! k = d0 !! k)
    /\ (d = d0 \/ (d = delete (lit "code") d0 /\ tag_of d0 <> lit "code")).
Proof.
  rewrite call_ai_api_run. intros [= H _]. unfold completion_result in H.
  destruct (session_post W tr _ _) as [r|]; [|discriminate].
  destruct (body_text r) as [t|] eqn:Hb; [|discriminate].
  destruct (status r =? 200) eqn:Hst; [|discriminate]. apply Z.eqb_eq in Hst.
  destruct (json_loads L t) as [w|e] eqn:Ht.
  2:{ unfold unwrap_completion in H. rewrite Ht in H. by destruct e. }
  destruct (envelope_content w) as [s|] eqn:Hc.
  2:{ destruct (unwrap_without_content L t w Ht Hc) as [Hu|[e [Hne Hu]]];
        rewrite Hu in H; [discriminate|by destruct e]. }
  rewrite (unwrap_with_content L t w s Ht Hc) in H.
  destruct (bool_decide (s = [])) eqn:He; [discriminate|].
  apply bool_decide_eq_false_1 in He.
  destruct (validate_content L (JStr s)) as [[d'|]|e] eqn:Hv;
    [|discriminate|by destruct e].
  cbn in H. injection H as ->.
  destruct (validate_origin L _ _ Hv) as (d0 & Hload & Hd).
  exists r, t, w, s, d0. repeat split; try done.
  intros k Hk. destruct Hd as [->|[-> _]]; [done|]. by rewrite lookup_delete_ne.
Qed.

Lemma call_ai_api_success_origin_witness :
  exists d tr',
    call_ai_api sample_lib (answering "E") sample_template (lit "say hi") ∅ []
    = (Ok (Some d), tr')
    /\ exists s d0,
         json_loads sample_lib s = Ok (JDict d0)
         /\ (forall k, k <> lit "code" -> d !! k = d0 !! k)
         /\ (d = d0 \/ (d = delete (lit "code") d0 /\ tag_of d0 <> lit "code")).
Proof.
  assert (call_ai_api sample_lib (answering "E") sample_template (lit "say hi") ∅ []
          = (Ok (Some (list_to_map [ (lit "response", JStr (lit "hi"));
                                     (lit "feedback", JStr (lit "ok"));
                                     (lit "type", JStr (lit "audio")) ])),
             [EPost AI_TEXT_API_URL
                (request_payload sample_lib sample_template (lit "say hi") ∅)]))
    as Hrun by (vm_compute; reflexivity).
  eexists _, _. split; [exact Hrun|].
  destruct (call_ai_api_success_origin _ _ _ _ _ _ _ _ Hrun)
    as (r & t & w & s & d0 & _ & _ & _ & _ & _ & _ & Hs & Hk & Hd).
  exists s, d0. split; [exact Hs|]. split; [exact Hk|exact Hd].
Defined.

(* --------------------------------------------------------------------- *)
(** ** The audio client, further *)
(* --------------------------------------------------------------------- *)

Lemma utf8_encode_char_raises (c : N) (e : exn) :
  utf8_encode_char c = Raise e -> e = UnicodeEncodeError.
Proof.
  unfold utf8_encode_char.
  repeat match goal with
         | |- context [if ?b then _ else _] => destruct b
         end; congruence.
Qed.

Lemma utf8_encode_char_bytes (c : N) (bs : list N) :
  utf8_encode_char c = Ok bs -> Forall (fun b => (b < 256)%N) bs.
Proof.
  unfold utf8_encode_char.
  destruct (N.ltb_spec c 128); [intros [= <-]; repeat constructor; lia|].
  destruct (N.ltb_spec c 2048).
  { intros [= <-].
    pose proof (N.Div0.div_lt_upper_bound c 64 32 ltac:(lia)).
    pose proof (N.mod_lt c 64 ltac:(lia)). repeat constructor; lia. }
  destruct (_ && _); [discriminate|].
  destruct (N.ltb_spec c 65536).
  { intros [= <-].
    pose proof (N.Div0.div_lt_upper_bound c 4096 16 ltac:(lia)).
    pose proof (N.mod_lt (c / 64) 64 ltac:(lia)).
    pose proof (N.mod_lt c 64 ltac:(lia)). repeat constructor; lia. }
  destruct (N.ltb_spec c 1114112); [|discriminate].
  intros [= <-].
  pose proof (N.Div0.div_lt_upper_bound c 262144 5 ltac:(lia)).
  pose proof (N.mod_lt (c / 4096) 64 ltac:(lia)).
  pose proof (N.mod_lt (c / 64) 64 ltac:(lia)).
  pose proof (N.mod_lt c 64 ltac:(lia)). repeat constructor; lia.
Qed.

Lemma utf8_encode_bytes (s : str) (bs : list N) :
  utf8_encode s = Ok bs -> Forall (fun b => (b < 256)%N) bs.
Proof.
  revert bs. induction s as [|c s IH]; intros bs; [intros [= <-]; constructor|].
  cbn [utf8_encode]. destruct (utf8_encode_char c) as [b|] eqn:Hc; [|discriminate].
  cbn [mbind result_bind]. destruct (utf8_encode s) as [bs'|]; [|discriminate].
  cbn [mbind result_bind]. intros [= <-]. apply Forall_app. split; [|by apply IH].
  by apply (utf8_encode_char_bytes c).
Qed.

Lemma utf8_encode_raises (s : str) (e : exn) :
  utf8_encode s = Raise e -> e = UnicodeEncodeError.
Proof.
  induction s as [|c s IH]; [discriminate|].
  cbn [utf8_encode]. destruct (utf8_encode_char c) as [b|e'] eqn:Hc.
  - cbn [mbind result_bind]. destruct (utf8_encode s) as [bs'|e'']; [discriminate|].
    cbn [mbind result_bind]. intros [= <-]. by apply IH.
  - cbn [mbind result_bind]. intros [= <-]. by apply (utf8_encode_char_raises c).
Qed.

Lemma quote_raises (s : str) (e : exn) : quote s = Raise e -> e = UnicodeEncodeError.
Proof.
  unfold quote. destruct (utf8_encode s) as [bs|e'] eqn:H; [discriminate|].
  cbn [mbind result_bind]. intros [= <-]. by apply (utf8_encode_raises s).
Qed.

Lemma hex_digit_safe (n : N) : (n < 16)%N -> always_safe (hex_digit n) = true.
Proof.
  intros H. assert (n ∈ [0;1;2;3;4;5;6;7;8;9;10;11;12;13;14;15]%N) as Hn.
  { set_unfold. lia. }
  set_unfold in Hn.
  repeat (destruct Hn as [->|Hn]; [reflexivity|]). done.
Qed.

Lemma quote_byte_chars (b : N) :
  (b < 256)%N -> Forall (fun c => url_char c = true) (quote_byte b).
Proof.
  intros Hb. unfold quote_byte. destruct (always_safe b) eqn:Hs.
  - repeat constructor. unfold url_char. by rewrite Hs.
  - pose proof (N.Div0.div_lt_upper_bound b 16 16 ltac:(lia)).
    pose proof (N.mod_lt b 16 ltac:(lia)).
    repeat constructor; unfold url_char; rewrite ?hex_digit_safe; done.
Qed.

(** What [quote] returns holds letters, digits, [_.-~] and percent signs
    only. *)
Lemma quote_chars (s p : str) :
  quote s = Ok p -> Forall (fun c => url_char c = true) p.
Proof.
  unfold quote. destruct (utf8_encode s) as [bs|] eqn:H; [|discriminate].
  cbn [mbind result_bind]. intros [= <-]. apply utf8_encode_bytes in H.
  induction H as [|b bs Hb Hbs IH]; [constructor|].
  cbn [map concat]. apply Forall_app. split; [by apply quote_byte_chars|done].
Qed.

Lemma audio_url_cases (text : str) :
  audio_url text <> Ok None
  /\ (forall e, audio_url text = Raise e -> e = UnicodeEncodeError)
  /\ (forall url,
        audio_url text = Ok (Some url) ->
        exists spoken p,
          quote spoken = Ok p
          /\ url = audio_url_prefix ++ p ++ audio_url_suffix
          /\ Forall (fun c => url_char c = true) p
          /\ (spoken = text \/ spoken = take 1891 text ++ lit "...")).
Proof.
  unfold audio_url. destruct (quote text) as [p|e] eqn:Hq.
  2:{ cbn [mbind result_bind]. split; [discriminate|]. split; [|discriminate].
      intros e' [= <-]. by apply (quote_raises text). }
  cbn [mbind result_bind].
  destruct (len (format_audio_url p) >? max_url_len).
  - change (max_url_len - (len AI_AUDIO_API_URL_TEMPLATE - len (lit "{prompt}")) - 50)
      with 1891.
    cbn [Z.leb Z.compare]. rewrite py_slice_prefix by lia.
    change (Z.to_nat 1891) with 1891%nat.
    destruct (quote (take 1891 text ++ lit "...")) as [p'|e] eqn:Hq'.
    + cbn [mbind result_bind]. split; [discriminate|]. split; [discriminate|].
      intros url [= <-]. exists (take 1891 text ++ lit "..."), p'.
      split; [done|]. split; [apply format_audio_url_app|].
      split; [by apply (quote_chars _ _ Hq')|by right].
    + cbn [mbind result_bind]. split; [discriminate|]. split; [|discriminate].
      intros e' [= <-]. by apply (quote_raises _ _ Hq').
  - split; [discriminate|]. split; [discriminate|].
    intros url [= <-]. exists text, p.
    split; [done|]. split; [apply format_audio_url_app|].
    split; [by apply (quote_chars _ _ Hq)|by left].
Qed.

(** X7.  The construction of the URL never gives up (the branch of lines
    321-323 is dead).  The URL it builds is the fixed host, one path
    segment and the fixed query; the segment holds letters, digits, [_.-~]
    and percent signs only, so the text can add neither a path separator
    nor a query parameter; and the segment encodes either the whole text
    or, when the URL of the whole text is longer than 2000 characters, its
    first 1891 characters followed by three dots. *)
Theorem audio_url_shape (text : str) :
  audio_url text <> Ok None
  /\ (forall e, audio_url text = Raise e -> e = UnicodeEncodeError)
  /\ (forall url,
        audio_url text = Ok (Some url) ->
        exists spoken p,
          quote spoken = Ok p
          /\ url = audio_url_prefix ++ p ++ audio_url_suffix
          /\ Forall (fun c => url_char c = true) p
          /\ (spoken = text \/ spoken = take 1891 text ++ lit "...")).
Proof. exact (audio_url_cases text). Qed.

Lemma audio_url_shape_witness :
  audio_url (lit "hi there") = Ok (Some (format_audio_url (lit "hi%20there")))
  /\ exists spoken p,
       quote spoken = Ok p
       /\ format_audio_url (lit "hi%20there") = audio_url_prefix ++ p ++ audio_url_suffix
       /\ Forall (fun c => url_char c = true) p
       /\ (spoken = lit "hi there" \/ spoken = take 1891 (lit "hi there") ++ lit "...").
Proof.
  assert (audio_url (lit "hi there") = Ok (Some (format_audio_url (lit "hi%20there"))))
    as H by (vm_compute; reflexivity).
  split; [exact H|].
  exact (proj2 (proj2 (audio_url_shape (lit "hi there"))) _ H).
Defined.

(** X8.  For a text of letters, digits and [_.-~] the cut is exact: the URL
    has the 59 characters of the host and the query and those of the
    text, and a text of more than 1941 characters is cut to its first
    1891 characters and three dots, for a URL of 1953 characters.  On
    such texts the URL is never longer than the ceiling of 2000. *)
Theorem unreserved_text_url_length (text : str) :
  Forall (fun c => always_safe c = true) text ->
  exists url,
    audio_url text = Ok (Some url)
    /\ len url = (if len text >? 1941 then 1953 else len text + 59)
    /\ len url <= max_url_len.
Proof.
  intros Hsafe. unfold audio_url. rewrite (quote_unreserved text Hsafe).
  cbn [mbind result_bind]. unfold max_url_len. rewrite len_format_audio_url.
  destruct (Z.gtb_spec (len text + 59) 2000) as [Hlong|Hshort].
  - change (2000 - (len AI_AUDIO_API_URL_TEMPLATE - len (lit "{prompt}")) - 50)
      with 1891.
    cbn [Z.leb Z.compare]. rewrite py_slice_prefix by lia.
    rewrite quote_unreserved.
    2:{ apply Forall_app. split; [by apply Forall_take|]. repeat constructor. }
    cbn [mbind result_bind]. eexists. split; [done|].
    rewrite len_format_audio_url. unfold len in *.
    rewrite length_app, length_take. change (length (lit "...")) with 3%nat.
    rewrite (proj2 (Z.gtb_lt _ _)) by lia. lia.
  - eexists. split; [done|]. rewrite len_format_audio_url.
    destruct (Z.gtb_spec (len text) 1941); lia.
Qed.

Lemma unreserved_text_url_length_witness :
  Forall (fun c => always_safe c = true) (repeat 97%N 2500)
  /\ exists url, audio_url (repeat 97%N 2500) = Ok (Some url) /\ len url = 1953.
Proof.
  assert (Forall (fun c => always_safe c = true) (repeat 97%N 2500)) as Hsafe.
  { apply Forall_forall. intros c Hc. apply list_elem_of_In, repeat_spec in Hc.
    by subst c. }
  split; [exact Hsafe|].
  destruct (unreserved_text_url_length _ Hsafe) as (url & Hurl & Hlen & _).
  exists url. split; [exact Hurl|]. rewrite Hlen. vm_compute. reflexivity.
Defined.

Lemma utf8_encode_surrogate (s : str) :
  Exists (fun c => is_surrogate c = true) s ->
  utf8_encode s = Raise UnicodeEncodeError.
Proof.
  induction 1 as [c s Hc|c s Hs IH]; cbn [utf8_encode].
  - unfold utf8_encode_char. unfold is_surrogate in Hc. rewrite Hc.
    apply andb_true_iff in Hc as [Hlo Hhi]. apply N.leb_le in Hlo.
    rewrite (proj2 (N.ltb_ge c 128)) by lia.
    by rewrite (proj2 (N.ltb_ge c 2048)) by lia.
  - rewrite IH. destruct (utf8_encode_char c) as [b|e] eqn:Hc; [done|].
    cbn [mbind result_bind]. by rewrite (utf8_encode_char_raises c e Hc).
Qed.

Section AudioFurther.

Variable L : pylib.
Variable W : world.

(** X9.  [get_audio_from_text] never raises, whatever the network does, and
    makes one GET at most, to a URL of the audio endpoint; it returns
    bytes only after a GET. *)
Theorem get_audio_from_text_never_raises (text : str) (tr : trace) :
  exists r new,
    get_audio_from_text L W text tr = (Ok r, tr ++ new)
    /\ (new = []
        \/ exists p, new = [EGet (audio_url_prefix ++ p ++ audio_url_suffix)]
                     /\ Forall (fun c => url_char c = true) p)
    /\ (new = [] -> r = None).
Proof.
  rewrite get_audio_from_text_run. destruct text as [|c text'].
  { exists None, []. rewrite app_nil_r. split; [done|]. split; [by left|done]. }
  destruct (audio_url (c :: text')) as [[url|]|e] eqn:Hurl.
  - destruct (proj2 (proj2 (audio_url_cases (c :: text'))) url Hurl)
      as (spoken & p & _ & -> & Hp & _).
    eexists _, _. split; [reflexivity|]. split; [right; by exists p|discriminate].
  - exists None, []. rewrite app_nil_r. split; [done|]. split; [by left|done].
  - exists None, []. rewrite app_nil_r. split; [done|]. split; [by left|done].
Qed.

(** X10.  A text with a lone surrogate (which [json.loads] lets through)
    cannot be encoded: nothing is fetched and [None] is returned. *)
Theorem surrogate_text_is_not_fetched (text : str) (tr : trace) :
  Exists (fun c => is_surrogate c = true) text ->
  get_audio_from_text L W text tr = (Ok None, tr).
Proof.
  intros H. rewrite get_audio_from_text_run. destruct text as [|c text']; [done|].
  unfold audio_url, quote. by rewrite (utf8_encode_surrogate _ H).
Qed.

End AudioFurther.

Lemma surrogate_text_is_not_fetched_witness :
  Exists (fun c => is_surrogate c = true) (lit "oh " ++ [55357%N])
  /\ get_audio_from_text sample_lib (answering "E") (lit "oh " ++ [55357%N]) []
     = (Ok None, []).
Proof.
  assert (Exists (fun c => is_surrogate c = true) (lit "oh " ++ [55357%N])) as H.
  { apply Exists_app. right. by apply Exists_cons_hd. }
  split; [exact H|]. exact (surrogate_text_is_not_fetched sample_lib _ _ [] H).
Defined.

(* --------------------------------------------------------------------- *)
(** ** The dispatcher, further *)
(* --------------------------------------------------------------------- *)

Lemma split_parts_lookup (s : str) (i : nat) (p : str) :
  split_parts s !! i = Some p ->
  p = take 1990 (drop (i * 1990) s) /\ (i < length (split_parts s))%nat.
Proof.
  intros H. pose proof (lookup_lt_Some _ _ _ H) as Hlt. split; [|done].
  rewrite split_parts_chunks in H. rewrite list_lookup_fmap in H.
  destruct (seq 0 _ !! i) as [k|] eqn:Hk; [|discriminate].
  apply lookup_seq in Hk as [-> _]. by injection H as <-.
Qed.

(** X11.  The parts of a response of any length: put end to end they are the
    response; there are as many as 1990 goes into the length, rounded up;
    none is empty, none is longer than 1990 characters, and all but the
    last have 1990 characters exactly. *)
Theorem split_parts_partition (s : str) :
  concat (split_parts s) = s
  /\ length (split_parts s) = Z.to_nat ((len s + 1989) / 1990)
  /\ (forall i p, split_parts s !! i = Some p ->
                  0 < len p <= 1990
                  /\ ((S i < length (split_parts s))%nat -> len p = 1990)).
Proof.
  split; [apply split_parts_concat|]. split; [apply split_parts_length|].
  intros i p Hp. apply split_parts_lookup in Hp as [-> Hi].
  rewrite split_parts_length in *. unfold len in *. rewrite length_take, length_drop.
  pose proof (Z.mul_div_le (Z.of_nat (length s) + 1989) 1990 ltac:(lia)).
  split; lia.
Qed.

(** X12.  Whatever the dispatcher does, the guard around it (lines 587-601)
    lets no Discord HTTP error out: when the dispatcher ends well nothing
    is added; a [Forbidden] is dropped without a word; after any other
    error one notice is tried, once, and an HTTP error of that notice is
    dropped too. *)
Theorem dispatch_errors_are_contained (W : world) (m : IO unit) (tr : trace) :
  (forall e, fst (try_except m (on_dispatch_error W) tr) = Raise e ->
             is_HTTPException e = false)
  /\ (fst (m tr) = Ok tt -> try_except m (on_dispatch_error W) tr = m tr)
  /\ (fst (m tr) = Raise Forbidden ->
      try_except m (on_dispatch_error W) tr = (Ok tt, snd (m tr)))
  /\ (forall e, fst (m tr) = Raise e -> e <> Forbidden ->
                 exists notice,
                   snd (try_except m (on_dispatch_error W) tr)
                   = snd (m tr) ++ [ESend notice]).
Proof.
  unfold try_except. destruct (m tr) as [[[]|e] tr'] eqn:Hm; cbn [fst snd].
  - repeat split; (discriminate || done).
  - assert (forall notice e', fst (send_fallback W notice tr') = Raise e' ->
                              is_HTTPException e' = false) as Hfb.
    { intros notice e'. unfold send_fallback, try_except, emit.
      destruct (discord_fault W tr' (ESend notice)) as [e2|]; [|discriminate].
      destruct (is_HTTPException e2) eqn:H2; [discriminate|].
      unfold raise. cbn. by intros [= <-]. }
    split; [|split; [discriminate|split]].
    + intros e'. unfold on_dispatch_error.
      destruct e; try apply Hfb. discriminate.
    + by intros [= ->].
    + intros e' [= <-] Hne. unfold on_dispatch_error.
      assert (forall notice, snd (send_fallback W notice tr') = tr' ++ [ESend notice])
        as Hsnd.
      { intros notice. unfold send_fallback, try_except, emit.
        destruct (discord_fault W tr' (ESend notice)) as [e2|]; [|done].
        by destruct (is_HTTPException e2). }
      destruct e; try done; eexists; apply Hsnd.
Qed.

Section AudioBranch.

Variable L : pylib.
Variable W : world.
Hypothesis accepted : no_faults W.


End AudioBranch.


(* --------------------------------------------------------------------- *)
(** ** The code cleanup, further *)
(* --------------------------------------------------------------------- *)

Lemma str_lstrip_head (s : str) :
  match str_lstrip s with
  | [] => True
  | c :: _ => isspace c = false
  end.
Proof.
  induction s as [|c s IH]; [done|]. cbn. destruct (isspace c) eqn:Hc; [done|].
  exact Hc.
Qed.

Lemma str_lstrip_idem (s : str) : str_lstrip (str_lstrip s) = str_lstrip s.
Proof.
  pose proof (str_lstrip_head s) as H. destruct (str_lstrip s) as [|c r]; [done|].
  by apply str_lstrip_solid.
Qed.

Lemma str_lstrip_snoc (u : str) (c : N) :
  isspace c = false -> str_lstrip (u ++ [c]) = str_lstrip u ++ [c].
Proof.
  intros Hc. induction u as [|x u IH]; cbn; [by rewrite Hc|].
  by destruct (isspace x).
Qed.

Lemma str_rstrip_cons (c : N) (r : str) :
  isspace c = false -> str_rstrip (c :: r) = c :: str_rstrip r.
Proof.
  intros Hc. unfold str_rstrip. cbn [rev].
  by rewrite str_lstrip_snoc, rev_app_distr.
Qed.

(** What [strip] returns has nothing left to strip. *)
Lemma str_strip_idem (s : str) : str_strip (str_strip s) = str_strip s.
Proof.
  unfold str_strip.
  assert (forall t, str_rstrip (str_rstrip t) = str_rstrip t) as Hr.
  { intros t. unfold str_rstrip. by rewrite rev_involutive, str_lstrip_idem. }
  pose proof (str_lstrip_head s) as H. destruct (str_lstrip s) as [|c r]; [done|].
  rewrite (str_rstrip_cons c r H), (str_lstrip_solid c _ H).
  by rewrite <- (str_rstrip_cons c r H), Hr.
Qed.

(** Text whose first and last characters are not white space is left as
    it is by [strip]. *)
Lemma str_strip_solid (a c : N) (mid : str) :
  isspace a = false -> isspace c = false ->
  str_strip (a :: mid ++ [c]) = a :: mid ++ [c].
Proof.
  intros Ha Hc. unfold str_strip. rewrite (str_lstrip_solid a _ Ha).
  unfold str_rstrip. change (a :: mid ++ [c]) with ((a :: mid) ++ [c]).
  rewrite rev_app_distr. cbn [rev app]. rewrite (str_lstrip_solid c _ Hc).
  change (c :: rev mid ++ [a]) with (rev [c] ++ rev (a :: mid)).
  by rewrite <- rev_app_distr, rev_involutive.
Qed.

Lemma splitlines_from_nonempty (cur s : str) :
  cur <> [] -> splitlines_from cur s <> [].
Proof.
  revert cur. induction s as [|c s IH]; intros cur Hcur.
  - cbn. by destruct cur.
  - cbn [splitlines_from]. destruct (is_linebreak c); [discriminate|].
    by apply IH.
Qed.

Lemma splitlines_fenced_nonempty (s : str) :
  str_startswith fence s = true -> str_splitlines s <> [].
Proof.
  intros H. destruct s as [|c s]; [discriminate|].
  cbn in H. apply andb_true_iff in H as [H _]. apply N.eqb_eq in H. subst c.
  unfold str_splitlines. cbn [splitlines_from].
  change (is_linebreak 96) with false. cbn iota. by apply splitlines_from_nonempty.
Qed.

(** X14.  The cleanup never raises (its [lines[0]] and [lines[-1]] are always
    there), and what it returns has no white space at either end, so it
    is empty or begins and ends with a character of the code. *)
Theorem clean_code_total_stripped (code : str) :
  exists cleaned, clean_code code = Ok cleaned /\ str_strip cleaned = cleaned.
Proof.
  unfold clean_code.
  destruct (str_startswith fence (str_strip code)) eqn:Hfence.
  2:{ cbn [mbind result_bind]. eexists. split; [done|apply str_strip_idem]. }
  pose proof (splitlines_fenced_nonempty _ Hfence) as Hne.
  destruct (str_splitlines (str_strip code)) as [|l0 rest] eqn:Hlines; [done|].
  cbn [first_line mbind result_bind].
  destruct (str_startswith fence l0).
  2:{ cbn [mbind result_bind]. eexists. split; [done|apply str_strip_idem]. }
  unfold last_line. destruct (last (l0 :: rest)) as [ll|] eqn:Hlast.
  2:{ by apply last_None in Hlast. }
  cbn [mbind result_bind].
  destruct (str_eqb ll fence); cbn [mbind result_bind];
    eexists; (split; [done|apply str_strip_idem]).
Qed.

(** X15.  A block that opens with a delimiter line but whose last line is not
    the bare delimiter (none was written, or it carries other characters,
    such as leading spaces) loses its opening line only: the last line
    stays in the code that is run. *)
Theorem unclosed_fence_keeps_last_line (opening : str) (body : list str)
    (z : str) (c : N) :
  str_startswith fence opening = true ->
  single_line opening -> Forall single_line body -> single_line (z ++ [c]) ->
  isspace c = false -> z ++ [c] <> fence ->
  clean_code (str_join [10%N] (opening :: body ++ [z ++ [c]]))
  = Ok (str_strip (str_join [10%N] (body ++ [z ++ [c]]))).
Proof.
  intros Hopen Hline Hbody Hlast Hc Hne. unfold clean_code.
  set (block := str_join [10%N] (opening :: body ++ [z ++ [c]])).
  assert (str_startswith fence block = true) as Hstart.
  { subst block. destruct (body ++ [z ++ [c]]) eqn:E; [by destruct body|].
    rewrite str_join_cons. by apply str_startswith_app. }
  assert (str_strip block = block) as Hstrip.
  { assert (exists mid, block = 96%N :: mid ++ [c]) as [mid Hmid].
    { subst block. change (opening :: body ++ [z ++ [c]])
        with ((opening :: body) ++ [z ++ [c]]).
      rewrite str_join_snoc.
      destruct (str_join [10%N] (opening :: body)) as [|a r] eqn:E.
      { destruct opening; [discriminate|]. destruct body; discriminate. }
      assert (a = 96%N) as ->.
      { assert (str_startswith fence (a :: r) = true) as Hs.
        { rewrite <- E. destruct body; [done|].
          rewrite str_join_cons. by apply str_startswith_app. }
        cbn in Hs. apply andb_true_iff in Hs as [Hs _]. by apply N.eqb_eq in Hs. }
      exists (r ++ [10%N] ++ z). by rewrite <- !app_assoc. }
    rewrite Hmid. by apply str_strip_solid. }
  rewrite Hstrip, Hstart. subst block.
  change (opening :: body ++ [z ++ [c]]) with ((opening :: body) ++ [z ++ [c]]).
  rewrite splitlines_join; [|by constructor|done|by destruct z].
  cbn [app first_line mbind result_bind]. rewrite Hopen.
  unfold last_line. change (opening :: body ++ [z ++ [c]])
    with ((opening :: body) ++ [z ++ [c]]).
  rewrite last_snoc. cbn [mbind result_bind].
  destruct (str_eqb (z ++ [c]) fence) eqn:Heq; [by apply str_eqb_eq in Heq|].
  cbn [mbind result_bind app]. rewrite py_slice_suffix by lia.
  by change (Z.to_nat 1) with 1%nat.
Qed.

Lemma unclosed_fence_keeps_last_line_witness :
  (single_line (lit "```python") /\ Forall single_line [lit "x = 1"]
   /\ single_line (lit "  ``" ++ [96%N]) /\ lit "  ``" ++ [96%N] <> fence)
  /\ clean_code (str_join [10%N] (lit "```python" :: [lit "x = 1"] ++ [lit "  ``" ++ [96%N]]))
     = Ok (lit "x = 1" ++ [10%N] ++ lit "  ```").
Proof.
  assert (single_line (lit "```python")) as H1 by (by repeat constructor).
  assert (Forall single_line [lit "x = 1"]) as H2 by (by repeat constructor).
  assert (single_line (lit "  ``" ++ [96%N])) as H3 by (by repeat constructor).
  assert (lit "  ``" ++ [96%N] <> fence) as H4 by (vm_compute; discriminate).
  split; [by repeat split|].
  rewrite (unclosed_fence_keeps_last_line (lit "```python") [lit "x = 1"]
             (lit "  ``") 96%N eq_refl H1 H2 H3 eq_refl H4).
  vm_compute. reflexivity.
Defined.

(* --------------------------------------------------------------------- *)
(** ** What a computation adds to the trace *)
(* --------------------------------------------------------------------- *)

Section Emits.

Context {A B : Type}.

Lemma emits_mono (Q Q' : trace -> Prop) (m : IO A) :
  (forall new, Q new -> Q' new) -> emits Q m -> emits Q' m.
Proof. intros HQ Hm tr. destruct (Hm tr) as (new & Hnew & HQn). eauto. Qed.

Lemma emits_ret (Q : trace -> Prop) (a : A) : Q [] -> emits Q (mret a : IO A).
Proof. intros HQ tr. exists []. by rewrite app_nil_r. Qed.

Lemma emits_lift (Q : trace -> Prop) (r : result A) : Q [] -> emits Q (lift r).
Proof. intros HQ tr. exists []. by rewrite app_nil_r. Qed.

Lemma emits_raise (Q : trace -> Prop) (e : exn) : Q [] -> emits Q (raise e : IO A).
Proof. intros HQ tr. exists []. by rewrite app_nil_r. Qed.

Lemma emits_bind (Q1 Q2 Q : trace -> Prop) (m : IO A) (k : A -> IO B) :
  emits Q1 m -> (forall a, emits Q2 (k a)) ->
  (forall n1, Q1 n1 -> Q n1) ->
  (forall n1 n2, Q1 n1 -> Q2 n2 -> Q (n1 ++ n2)) ->
  emits Q (m ≫= k).
Proof.
  intros Hm Hk Hone Hboth tr. unfold mbind, IO_bind.
  destruct (Hm tr) as (n1 & Hn1 & HQ1). destruct (m tr) as [[a|e] tr1]; cbn in Hn1.
  - subst tr1. destruct (Hk a (tr ++ n1)) as (n2 & Hn2 & HQ2).
    exists (n1 ++ n2). rewrite Hn2, app_assoc. eauto.
  - subst tr1. exists n1. eauto.
Qed.

Lemma emits_try (Q1 Q2 Q : trace -> Prop) (m : IO A) (h : exn -> IO A) :
  emits Q1 m -> (forall e, emits Q2 (h e)) ->
  (forall n1, Q1 n1 -> Q n1) ->
  (forall n1 n2, Q1 n1 -> Q2 n2 -> Q (n1 ++ n2)) ->
  emits Q (try_except m h).
Proof.
  intros Hm Hh Hone Hboth tr. unfold try_except.
  destruct (Hm tr) as (n1 & Hn1 & HQ1). destruct (m tr) as [[a|e] tr1]; cbn in Hn1.
  - subst tr1. exists n1. eauto.
  - subst tr1. destruct (Hh e (tr ++ n1)) as (n2 & Hn2 & HQ2).
    exists (n1 ++ n2). rewrite Hn2, app_assoc. eauto.
Qed.

End Emits.

Lemma count_app (f : event -> bool) (a b : trace) :
  count f (a ++ b) = (count f a + count f b)%nat.
Proof. unfold count. by rewrite filter_app, length_app. Qed.

Lemma within_nil (p g i : nat) : within p g i [].
Proof. unfold within, count. cbn. lia. Qed.

Lemma within_app (p g i p' g' i' : nat) (a b : trace) :
  within p g i a -> within p' g' i' b ->
  within (p + p') (g + g') (i + i') (a ++ b).
Proof. unfold within. rewrite !count_app. lia. Qed.

Lemma within_mono (p g i p' g' i' : nat) (new : trace) :
  (p <= p')%nat -> (g <= g')%nat -> (i <= i')%nat ->
  within p g i new -> within p' g' i' new.
Proof. unfold within. lia. Qed.

Lemma within_one (ev : event) :
  within (if is_post ev then 1 else 0) (if is_get ev then 1 else 0)
         (if is_invoke ev then 1 else 0) [ev].
Proof. by destruct ev; unfold within, count; cbn; repeat split. Qed.

Section Bounds.

Variable L : pylib.
Variable W : world.
Variable template : str.

Lemma bounded_weaken {A : Type} (p g i p' g' i' : nat) (m : IO A) :
  (p <= p')%nat -> (g <= g')%nat -> (i <= i')%nat ->
  emits (within p g i) m -> emits (within p' g' i') m.
Proof. intros. eapply emits_mono; [|done]. intros new. by apply within_mono. Qed.

Lemma bounded_bind {A B : Type} (p g i p' g' i' : nat) (m : IO A) (k : A -> IO B) :
  emits (within p g i) m -> (forall a, emits (within p' g' i') (k a)) ->
  emits (within (p + p') (g + g') (i + i')) (m ≫= k).
Proof.
  intros Hm Hk. eapply emits_bind; [done|done| |].
  - intros n1. apply within_mono; lia.
  - intros n1 n2. apply within_app.
Qed.

Lemma bounded_try {A : Type} (p g i p' g' i' : nat) (m : IO A) (h : exn -> IO A) :
  emits (within p g i) m -> (forall e, emits (within p' g' i') (h e)) ->
  emits (within (p + p') (g + g') (i + i')) (try_except m h).
Proof.
  intros Hm Hh. eapply emits_try; [done|done| |].
  - intros n1. apply within_mono; lia.
  - intros n1 n2. apply within_app.
Qed.

Lemma bounded_emit (ev : event) :
  emits (within (if is_post ev then 1 else 0) (if is_get ev then 1 else 0)
                (if is_invoke ev then 1 else 0)) (emit W ev).
Proof. intros tr. exists [ev]. split; [done|apply within_one]. Qed.

Lemma bounded_reply (s : str) : emits (within 0 0 0) (reply W s).
Proof. apply (bounded_emit (EReply s false None)). Qed.

Lemma bounded_send (s : str) : emits (within 0 0 0) (emit W (ESend s)).
Proof. apply (bounded_emit (ESend s)). Qed.

Lemma bounded_sleep : emits (within 0 0 0) sleep.
Proof. intros tr. exists [ESleep]. split; [done|apply (within_one ESleep)]. Qed.

Lemma bounded_call_ai_api (msg : str) (info : dict) :
  emits (within 1 0 0) (call_ai_api L W template msg info).
Proof.
  intros tr. rewrite call_ai_api_run. eexists. split; [done|].
  apply (within_one (EPost _ _)).
Qed.

Lemma bounded_get_audio (text : str) :
  emits (within 0 1 0) (get_audio_from_text L W text).
Proof.
  intros tr. rewrite get_audio_from_text_run.
  destruct text as [|c text']; [exists []; rewrite app_nil_r; split; [done|apply within_nil]|].
  destruct (audio_url (c :: text')) as [[url|]|e];
    try (exists []; rewrite app_nil_r; split; [done|apply within_nil]).
  eexists. split; [done|]. apply (within_one (EGet _)).
Qed.

Lemma bounded_reply_parts (parts : list str) (i : Z) :
  emits (within 0 0 0) (reply_parts W i parts).
Proof.
  revert i. induction parts as [|p rest IH]; intros i.
  - apply emits_ret, within_nil.
  - cbn [reply_parts].
    apply (bounded_bind 0 0 0 0 0 0); [apply (bounded_emit (EReply _ _ _))|intros _].
    apply (bounded_bind 0 0 0 0 0 0); [apply bounded_sleep|intros _; apply IH].
Qed.

Lemma bounded_send_text (s : str) : emits (within 0 0 0) (send_text W s).
Proof.
  unfold send_text. destruct (len s >? 2000);
    [apply bounded_reply_parts|apply bounded_reply].
Qed.

Lemma bounded_send_audio (s : str) : emits (within 0 1 0) (send_audio L W s).
Proof.
  unfold send_audio.
  apply (bounded_bind 0 0 0 0 1 0); [apply bounded_reply|intros _].
  apply (bounded_bind 0 1 0 0 0 0); [apply bounded_get_audio|intros data].
  destruct data as [[|b bs]|]; try apply bounded_send.
  apply (bounded_emit (ESendFile _ _)).
Qed.

Lemma bounded_execute_code (code : str) : emits (within 0 0 1) (execute_code W code).
Proof.
  unfold execute_code.
  destruct (jishaku_cog W); cbn [negb];
    [|apply (bounded_weaken 0 0 0); try lia; apply bounded_send].
  destruct (jsk_py_command W); cbn [negb];
    [|apply (bounded_weaken 0 0 0); try lia; apply bounded_send].
  destruct (get_context_ok W); cbn [negb];
    [|apply (bounded_weaken 0 0 0); try lia; apply bounded_send].
  apply (bounded_try 0 0 1 0 0 0); [apply (bounded_emit (EInvoke _))|].
  intros e. destruct e; try apply bounded_send. apply emits_ret, within_nil.
Qed.

Lemma bounded_run_code (s : str) (code : option str) :
  emits (within 0 0 1) (run_code W s code).
Proof.
  unfold run_code.
  destruct code as [[|c code]|];
    try (apply (bounded_weaken 0 0 0); try lia; apply bounded_reply).
  apply (bounded_bind 0 0 0 0 0 1); [apply emits_lift, within_nil|intros cleaned].
  destruct cleaned as [|x cleaned];
    [apply (bounded_weaken 0 0 0); try lia; apply bounded_reply|].
  apply (bounded_bind 0 0 0 0 0 1); [apply bounded_reply|intros _].
  apply bounded_execute_code.
Qed.

Lemma bounded_dispatch (r t : str) (code : option str) :
  emits (within 0 1 1) (dispatch L W r t code).
Proof.
  unfold dispatch.
  destruct (_ || _); [apply (bounded_weaken 0 0 0); try lia; apply bounded_send_text|].
  destruct (str_eqb t (lit "audio"));
    [apply (bounded_weaken 0 1 0); try lia; apply bounded_send_audio|].
  destruct (str_eqb t (lit "code"));
    [apply (bounded_weaken 0 0 1); try lia; apply bounded_run_code|].
  apply (bounded_weaken 0 0 0); try lia; apply bounded_reply.
Qed.

Lemma bounded_send_fallback (notice : str) :
  emits (within 0 0 0) (send_fallback W notice).
Proof.
  unfold send_fallback. apply (bounded_try 0 0 0 0 0 0); [apply bounded_send|].
  intros e. destruct (is_HTTPException e); [apply emits_ret|apply emits_raise];
    apply within_nil.
Qed.

Lemma bounded_on_dispatch_error (e : exn) :
  emits (within 0 0 0) (on_dispatch_error W e).
Proof.
  unfold on_dispatch_error.
  destruct e; cbn; try apply bounded_send_fallback. apply emits_ret, within_nil.
Qed.

Lemma bounded_process_request (author : Author) (channel : Channel) (msg : str) :
  emits (within 1 1 1) (process_request L W template author channel msg).
Proof.
  unfold process_request.
  destruct (dict_falsy _);
    [apply (bounded_weaken 0 0 0); try lia; apply bounded_reply|].
  apply (bounded_bind 1 0 0 0 1 1); [apply bounded_call_ai_api|intros data].
  destruct data as [d|]; [|apply (bounded_weaken 0 0 0); try lia; apply bounded_reply].
  destruct (dict_falsy d);
    [apply (bounded_weaken 0 0 0); try lia; apply bounded_reply|].
  apply (bounded_bind 0 0 0 0 1 1); [apply emits_lift, within_nil|intros r].
  apply (bounded_bind 0 0 0 0 1 1); [apply emits_lift, within_nil|intros f].
  apply (bounded_bind 0 0 0 0 1 1); [apply emits_lift, within_nil|intros t].
  apply (bounded_bind 0 0 0 0 1 1); [apply emits_lift, within_nil|intros c].
  apply (bounded_try 0 1 1 0 0 0); [apply bounded_dispatch|].
  apply bounded_on_dispatch_error.
Qed.

Lemma bounded_resolve_author (author : Author) (g : Guild) :
  emits (within 0 0 0) (resolve_author W author g).
Proof.
  unfold resolve_author. destruct author as [m og b|id b];
    [apply emits_ret, within_nil|].
  apply (bounded_try 0 0 0 0 0 0).
  - apply (bounded_bind 0 0 0 0 0 0); [|intros a; apply emits_ret, within_nil].
    intros tr. eexists. split; [done|]. apply (within_one (EFetchMember _ _)).
  - intros e.
    destruct e;
      (apply (bounded_bind 0 0 0 0 0 0);
       [apply bounded_reply|intros _; apply emits_ret, within_nil]).
Qed.

(** X16.  One message, one round trip at most: whatever the message, the
    network and Discord do, [on_message] leaves the trace it found as it
    is, and what it adds holds at most one call to the completion
    endpoint, at most one fetch of audio and at most one invocation of the
    Jishaku command. *)
Theorem on_message_one_round_trip (message : Message) :
  emits (within 1 1 1) (on_message L W template message).
Proof.
  unfold on_message.
  destruct (_ || _); [apply emits_ret, within_nil|].
  destruct (_ && _);
    [apply (bounded_weaken 0 0 0); try lia; apply (bounded_emit EProcessCommands)|].
  destruct (guild message) as [g|]; [|apply emits_ret, within_nil].
  destruct (channel message) as [pf|]; [|apply emits_ret, within_nil].
  match goal with
  | |- context [match ?x with [] => _ | _ :: _ => _ end] => destruct x
  end; [apply (bounded_weaken 0 0 0); try lia; apply (bounded_emit (EReply _ _ _))|].
  apply (bounded_bind 0 0 0 1 1 1); [apply bounded_resolve_author|intros resolved].
  destruct resolved as [a|]; [|apply emits_ret, within_nil].
  apply (bounded_bind 0 0 0 1 1 1); [apply (bounded_emit ETyping)|intros _].
  apply bounded_process_request.
Qed.

End Bounds.

(* --------------------------------------------------------------------- *)
(** ** What code is run *)
(* --------------------------------------------------------------------- *)

Lemma invokes_only_none (allowed : str -> Prop) (p g : nat) (new : list event) :
  within p g 0 new -> invokes_only allowed new.
Proof.
  intros (_ & _ & H). unfold count in H. apply Forall_forall. intros ev Hev arg ->.
  assert (EInvoke arg ∈ filter (fun ev => is_invoke ev = true) new) as Hin
    by (by apply list_elem_of_filter).
  destruct (filter _ new); [by apply not_elem_of_nil in Hin|cbn in H; lia].
Qed.

Lemma emits_no_invoke {A : Type} (allowed : str -> Prop) (p g : nat) (m : IO A) :
  emits (within p g 0) m -> emits (invokes_only allowed) m.
Proof. apply emits_mono. intros new. apply invokes_only_none. Qed.

Lemma invokes_only_bind {A B : Type} (allowed : str -> Prop) (m : IO A) (k : A -> IO B) :
  emits (invokes_only allowed) m -> (forall a, emits (invokes_only allowed) (k a)) ->
  emits (invokes_only allowed) (m ≫= k).
Proof.
  intros Hm Hk. eapply emits_bind; [done|done|done|].
  intros n1 n2 H1 H2. by apply Forall_app.
Qed.

Lemma invokes_only_try {A : Type} (allowed : str -> Prop) (m : IO A) (h : exn -> IO A) :
  emits (invokes_only allowed) m -> (forall e, emits (invokes_only allowed) (h e)) ->
  emits (invokes_only allowed) (try_except m h).
Proof.
  intros Hm Hh. eapply emits_try; [done|done|done|].
  intros n1 n2 H1 H2. by apply Forall_app.
Qed.

Lemma invokes_only_lift_bind {A B : Type} (allowed : str -> Prop) (r : result A)
    (k : A -> IO B) :
  (forall a, r = Ok a -> emits (invokes_only allowed) (k a)) ->
  emits (invokes_only allowed) (lift r ≫= k).
Proof.
  intros Hk tr. unfold mbind, IO_bind, lift. destruct r as [a|e].
  - by apply Hk.
  - exists []. rewrite app_nil_r. split; [done|constructor].
Qed.

Section Invocation.

Variable L : pylib.
Variable W : world.
Variable template : str.

Lemma execute_code_invokes (cleaned : str) :
  emits (invokes_only (fun arg => arg = cleaned /\ jishaku_ready W))
    (execute_code W cleaned).
Proof.
  unfold execute_code.
  destruct (jishaku_cog W) eqn:H1; cbn [negb];
    [|apply (emits_no_invoke _ 0 0), bounded_send].
  destruct (jsk_py_command W) eqn:H2; cbn [negb];
    [|apply (emits_no_invoke _ 0 0), bounded_send].
  destruct (get_context_ok W) eqn:H3; cbn [negb];
    [|apply (emits_no_invoke _ 0 0), bounded_send].
  apply invokes_only_try.
  - intros tr. exists [EInvoke cleaned]. split; [done|].
    constructor; [|constructor]. intros arg [= <-]. by repeat split.
  - intros e. destruct e; try apply (emits_no_invoke _ 0 0), bounded_send.
    apply (emits_no_invoke _ 0 0), emits_ret, within_nil.
Qed.

Lemma dispatch_invokes (r t : str) (c : option str) :
  emits (invokes_only (fun arg =>
           t = lit "code"
           /\ (exists code, c = Some code /\ clean_code code = Ok arg /\ arg <> [])
           /\ jishaku_ready W))
    (dispatch L W r t c).
Proof.
  unfold dispatch.
  destruct (_ || _); [apply (emits_no_invoke _ 0 0), bounded_send_text|].
  destruct (str_eqb t (lit "audio"));
    [apply (emits_no_invoke _ 0 1), bounded_send_audio|].
  destruct (str_eqb t (lit "code")) eqn:Ht;
    [|apply (emits_no_invoke _ 0 0), bounded_reply].
  apply str_eqb_eq in Ht. unfold run_code.
  destruct c as [[|x code]|]; try apply (emits_no_invoke _ 0 0), bounded_reply.
  apply invokes_only_lift_bind. intros cleaned Hclean.
  destruct cleaned as [|y cleaned]; [apply (emits_no_invoke _ 0 0), bounded_reply|].
  apply invokes_only_bind; [apply (emits_no_invoke _ 0 0), bounded_reply|intros _].
  eapply emits_mono; [|apply execute_code_invokes].
  intros new Hnew. eapply Forall_impl; [exact Hnew|]. intros ev Hev arg Harg.
  destruct (Hev arg Harg) as [-> Hready]. split; [done|]. split; [|done].
  exists (x :: code). by repeat split.
Qed.

(** X17.  The only code that a request ever hands to the Jishaku command is the
    cleaned [code] field of the payload that the completion call
    returned, for a payload of type [code], when that code is not empty
    and Jishaku is there; in every other case nothing is run. *)
Theorem invoked_code_origin (author : Author) (channel : Channel) (msg : str)
    (tr : trace) :
  exists new,
    snd (process_request L W template author channel msg tr) = tr ++ new
    /\ invokes_only
         (fun arg =>
            exists d,
              completion_result L
                (session_post W tr AI_TEXT_API_URL
                   (request_payload L template msg (get_user_info author channel)))
              = Some d
              /\ code_of_payload d arg /\ jishaku_ready W)
         new.
Proof.
  unfold process_request.
  destruct (dict_falsy (get_user_info author channel)).
  { eexists. split; [apply emit_trace|]. repeat constructor. discriminate. }
  unfold mbind at 1. unfold IO_bind. rewrite call_ai_api_run.
  destruct (completion_result L _) as [d|] eqn:Hd.
  2:{ eexists. unfold reply. rewrite emit_trace, <- app_assoc. split; [done|].
      repeat constructor; discriminate. }
  destruct (dict_falsy d).
  { eexists. unfold reply. rewrite emit_trace, <- app_assoc. split; [done|].
    repeat constructor; discriminate. }
  assert (forall (A : Type) (e : exn),
            exists new : trace,
              tr ++ [EPost AI_TEXT_API_URL
                       (request_payload L template msg (get_user_info author channel))]
              = tr ++ new
              /\ invokes_only
                   (fun arg => exists d0, Some d = Some d0 /\ code_of_payload d0 arg
                                          /\ jishaku_ready W) new) as Hstop.
  { intros _ _. eexists. split; [done|]. repeat constructor. discriminate. }
  unfold mbind, IO_bind, lift.
  destruct (field_str d (lit "response") _) as [r|e]; [|by apply (Hstop unit)].
  destruct (field_str d (lit "feedback") _) as [f|e]; [|by apply (Hstop unit)].
  destruct (field_str d (lit "type") (lit "text")) as [t|e] eqn:Ht;
    [|by apply (Hstop unit)].
  destruct (field_code d) as [c|e] eqn:Hc; [|by apply (Hstop unit)].
  pose proof (invokes_only_try _ _ _ (dispatch_invokes r t c)
                (fun e => emits_no_invoke _ 0 0 _ (bounded_on_dispatch_error W e))
                (tr ++ [EPost AI_TEXT_API_URL
                          (request_payload L template msg (get_user_info author channel))]))
    as (new & Hnew & Hinv).
  exists (EPost AI_TEXT_API_URL
            (request_payload L template msg (get_user_info author channel)) :: new).
  split; [by rewrite Hnew, <- app_assoc|].
  constructor; [discriminate|].
  eapply Forall_impl; [exact Hinv|]. intros ev Hev arg Harg.
  destruct (Hev arg Harg) as (-> & (code & -> & Hclean & Hne) & Hready).
  exists d. split; [done|]. split; [|done]. split.
  - unfold field_str in Ht. destruct (d !! lit "type") as [[| | | |s| |]|];
      try discriminate. congruence.
  - exists code. split; [|done]. unfold field_code in Hc.
    destruct (d !! lit "code") as [[| | | |s| |]|]; try discriminate. congruence.
Qed.

End Invocation.

(* --------------------------------------------------------------------- *)
(** ** The handler, further *)
(* --------------------------------------------------------------------- *)

Section Handler.

Variable L : pylib.
Variable W : world.
Variable template : str.

(** Once a message is from a user, addresses the bot, is in a channel of
    a guild and says something, the handler looks the author up and
    starts the request. *)
Lemma on_message_request (message : Message) (g : Guild) (pf : Member -> Permissions) :
  from_bot W message = false -> is_addressed L W message = true ->
  guild message = Some g -> channel message = GuildChannel pf ->
  request_text W message <> [] ->
  on_message L W template message
  = (resolve_author W (author message) g ≫= fun resolved =>
       match resolved with
       | None => mret tt
       | Some author' =>
           emit W ETyping ≫= fun _ =>
           process_request L W template author' (channel message) (request_text W message)
       end).
Proof.
  unfold from_bot, is_addressed, request_text, trigger_prefix_of, on_message.
  intros -> Haddr -> Hch Htext. rewrite Hch in *.
  rewrite <- negb_orb, Haddr. cbn [negb].
  destruct (if mentions_bot message then _ else _) as [|c rest]; [done|].
  reflexivity.
Qed.

(** X18.  The messages that start no request.  A message of the bot itself or
    of another bot does nothing at all; a message that does not address
    the bot goes to the command processor and nowhere else; a message that
    addresses the bot outside a guild is dropped without an answer; one
    that addresses it with nothing to say gets the greeting, which
    deletes itself after ten seconds.  In none of these cases is the
    completion endpoint called. *)
Theorem on_message_gate (message : Message) (tr : trace) :
  (from_bot W message = true -> on_message L W template message tr = (Ok tt, tr))
  /\ (from_bot W message = false -> is_addressed L W message = false ->
      snd (on_message L W template message tr) = tr ++ [EProcessCommands])
  /\ (from_bot W message = false -> is_addressed L W message = true ->
      guild message = None \/ channel message = OtherChannel ->
      on_message L W template message tr = (Ok tt, tr))
  /\ (from_bot W message = false -> is_addressed L W message = true ->
      guild message <> None -> channel message <> OtherChannel ->
      request_text W message = [] ->
      snd (on_message L W template message tr)
      = tr ++ [EReply greeting false (Some 10)]).
Proof.
  unfold from_bot, is_addressed, request_text, trigger_prefix_of, on_message.
  split; [by intros ->|]. split; [|split].
  - intros -> Haddr. by rewrite <- negb_orb, Haddr.
  - intros -> Haddr Hout. rewrite <- negb_orb, Haddr. cbn [negb].
    destruct Hout as [-> | ->]; [done|]. by destruct (guild message).
  - intros -> Haddr Hg Hc Htext. rewrite <- negb_orb, Haddr. cbn [negb].
    destruct (guild message) as [g|]; [|done].
    destruct (channel message) as [pf|]; [|done].
    by rewrite Htext.
Qed.

End Handler.

Section HandlerRequests.

Variable L : pylib.
Variable W : world.
Variable template : str.

(** X19.  An author who is not yet a member object is fetched from the guild;
    when that fails, the handler sends one apology, worded after the
    failure, and stops: no typing indicator, no completion call. *)
Theorem unknown_author_apology (message : Message) (g : Guild)
    (pf : Member -> Permissions) (id : N) (b : bool) (e : exn) (tr : trace) :
  from_bot W message = false -> is_addressed L W message = true ->
  guild message = Some g -> channel message = GuildChannel pf ->
  request_text W message <> [] ->
  author message = AUser id b ->
  fetch_member W tr (guild_id g) id = Raise e ->
  snd (on_message L W template message tr)
  = tr ++ [EFetchMember (guild_id g) id; EReply (fetch_apology e) false None].
Proof.
  intros Hbot Haddr Hg Hc Htext Hauthor Hfetch.
  rewrite (on_message_request L W template message g pf Hbot Haddr Hg Hc Htext).
  rewrite Hauthor. unfold resolve_author, guild_fetch_member, try_except.
  unfold mbind at 1. unfold IO_bind. unfold mbind at 1. unfold IO_bind. cbn beta.
  rewrite Hfetch.
  destruct e; unfold reply, emit, mbind, IO_bind, mret, IO_ret; cbn beta;
    match goal with
    | |- context [discord_fault W ?t ?ev] =>
        destruct (discord_fault W t ev); cbn; by rewrite <- app_assoc
    end.
Qed.

(** X20.  A request whose completion call fails, in any of the ways it can,
    ends the same way: after the typing indicator and the one call, the
    one generic apology is sent as a reply, and nothing else is done. *)
Theorem failed_completion_one_apology (message : Message) (g g' : Guild)
    (pf : Member -> Permissions) (m : Member) (b : bool) (tr : trace) :
  from_bot W message = false -> is_addressed L W message = true ->
  guild message = Some g -> channel message = GuildChannel pf ->
  request_text W message <> [] ->
  author message = AMember m (Some g') b ->
  discord_fault W tr ETyping = None ->
  completion_failure L
    (session_post W (tr ++ [ETyping]) AI_TEXT_API_URL
       (request_payload L template (request_text W message)
          (get_user_info (author message) (channel message)))) ->
  snd (on_message L W template message tr)
  = tr ++ [ETyping;
           EPost AI_TEXT_API_URL
             (request_payload L template (request_text W message)
                (get_user_info (author message) (channel message)));
           EReply apology_ai false None].
Proof.
  intros Hbot Haddr Hg Hc Htext Hauthor Htyping Hfail.
  rewrite (on_message_request L W template message g pf Hbot Haddr Hg Hc Htext).
  rewrite Hauthor in *. rewrite Hc in *. unfold resolve_author.
  unfold mbind at 1. unfold IO_bind, mret, IO_ret.
  unfold mbind at 1. unfold IO_bind, emit. rewrite Htyping.
  unfold process_request. rewrite snapshot_truthy.
  unfold mbind at 1. unfold IO_bind. rewrite call_ai_api_run.
  rewrite (completion_failure_result L _ Hfail).
  unfold reply. rewrite emit_trace. by rewrite <- !app_assoc.
Qed.

End HandlerRequests.

Lemma unknown_author_apology_witness :
  request_text (answering "A") stranger_message = lit "hello"
  /\ snd (on_message sample_lib (answering "A") sample_template stranger_message [])
     = [EFetchMember 42 77;
        EReply (lit "Apologies, I couldn't verify your server details.") false None].
Proof.
  split; [vm_compute; reflexivity|].
  refine (unknown_author_apology sample_lib (answering "A") sample_template
            stranger_message sample_guild (fun m => guild_permissions m) 77 false
            NotFound [] eq_refl eq_refl eq_refl eq_refl _ eq_refl eq_refl).
  vm_compute. discriminate.
Defined.

Lemma failed_completion_one_apology_witness :
  completion_failure sample_lib (Ok (text_response 500 (lit "Internal Server Error")))
  /\ snd (on_message sample_lib
            (quiet_world (Ok (text_response 500 (lit "Internal Server Error")))
               (Raise ClientError))
            sample_template (guild_message (lit "Metarunx, say hi")) [])
     = [ETyping;
        EPost AI_TEXT_API_URL
          (request_payload sample_lib sample_template (lit "say hi")
             (get_user_info (AMember sample_member (Some sample_guild) false)
                sample_channel));
        EReply apology_ai false None].
Proof.
  assert (completion_failure sample_lib
            (Ok (text_response 500 (lit "Internal Server Error")))) as Hfail.
  { apply bad_status. vm_compute. discriminate. }
  split; [exact Hfail|].
  refine (failed_completion_one_apology sample_lib
            (quiet_world (Ok (text_response 500 (lit "Internal Server Error")))
               (Raise ClientError))
            sample_template
            (guild_message (lit "Metarunx, say hi")) sample_guild sample_guild
            (fun m => guild_permissions m) sample_member false []
            eq_refl eq_refl eq_refl eq_refl _ eq_refl eq_refl Hfail).
  vm_compute. discriminate.
Defined.

(* --------------------------------------------------------------------- *)
(** ** Sends that fail *)
(* --------------------------------------------------------------------- *)

Section Faults.

Variable L : pylib.
Variable W : world.

Lemma reply_parts_prefix_later (parts : list str) (i : Z) (tr : trace) :
  0 < i ->
  exists new,
    snd (reply_parts W i parts tr) = tr ++ new
    /\ new `prefix_of` flat_map (fun q => [EReply q false None; ESleep]) parts.
Proof.
  revert i tr. induction parts as [|p rest IH]; intros i tr Hi.
  - exists []. cbn. by rewrite app_nil_r.
  - cbn [reply_parts flat_map]. unfold mbind, IO_bind, emit, sleep.
    rewrite (proj2 (Z.gtb_lt i 0)) by lia.
    destruct (discord_fault W tr _).
    + exists [EReply p false None]. split; [done|].
      apply (prefix_app [EReply p false None] []), prefix_nil.
    + destruct (IH (i + 1) ((tr ++ [EReply p false None]) ++ [ESleep]) ltac:(lia))
        as (new & Hnew & Hpre).
      exists ([EReply p false None; ESleep] ++ new).
      rewrite Hnew, <- !app_assoc. split; [done|]. by apply prefix_app.
Qed.

Lemma send_text_prefix (s : str) (tr : trace) :
  exists new, snd (send_text W s tr) = tr ++ new /\ new `prefix_of` text_events s.
Proof.
  unfold send_text, text_events. destruct (len s >? 2000).
  - destruct (split_parts s) as [|p rest].
    { exists []. cbn. by rewrite app_nil_r. }
    cbn [reply_parts chunk_replies]. unfold mbind, IO_bind, emit, sleep.
    cbn [Z.gtb Z.compare].
    destruct (discord_fault W tr _).
    + exists [EReply p true None]. split; [done|].
      apply (prefix_app [EReply p true None] []), prefix_nil.
    + destruct (reply_parts_prefix_later rest (0 + 1)
                  ((tr ++ [EReply p true None]) ++ [ESleep]) ltac:(lia))
        as (new & Hnew & Hpre).
      exists ([EReply p true None; ESleep] ++ new).
      rewrite Hnew, <- !app_assoc. split; [done|].
      by apply (prefix_app [EReply p true None; ESleep]).
  - exists [EReply s false None]. split; [apply emit_trace|done].
Qed.

Lemma reply_parts_done_later (parts : list str) (i : Z) (tr : trace) :
  0 < i -> fst (reply_parts W i parts tr) = Ok tt ->
  snd (reply_parts W i parts tr)
  = tr ++ flat_map (fun q => [EReply q false None; ESleep]) parts.
Proof.
  revert i tr. induction parts as [|p rest IH]; intros i tr Hi.
  - cbn. by rewrite app_nil_r.
  - cbn [reply_parts flat_map]. unfold mbind, IO_bind, emit, sleep.
    rewrite (proj2 (Z.gtb_lt i 0)) by lia.
    destruct (discord_fault W tr _); [discriminate|].
    intros H. rewrite IH by (lia || done). by rewrite <- !app_assoc.
Qed.

Lemma send_text_done (s : str) (tr : trace) :
  fst (send_text W s tr) = Ok tt -> snd (send_text W s tr) = tr ++ text_events s.
Proof.
  unfold send_text, text_events. destruct (len s >? 2000); [|intros _; apply emit_trace].
  destruct (split_parts s) as [|p rest]; [cbn; by rewrite app_nil_r|].
  cbn [reply_parts chunk_replies]. unfold mbind, IO_bind, emit, sleep.
  cbn [Z.gtb Z.compare].
  destruct (discord_fault W tr _); [discriminate|].
  intros H. rewrite reply_parts_done_later by (lia || done).
  by rewrite <- !app_assoc.
Qed.

(** X21.  A text or rejection response goes out in order whatever Discord
    does: what is sent is always an initial segment of the replies (and
    pauses) of the whole response, so no part is skipped, sent twice or
    sent out of turn, and a send that fails ends the sending.  The
    dispatcher ends well only when the whole response has been sent. *)
Theorem text_is_sent_in_order (s t : str) (code : option str) (tr : trace) :
  t = lit "text" \/ t = lit "rejection" ->
  exists new,
    snd (dispatch L W s t code tr) = tr ++ new
    /\ new `prefix_of` text_events s
    /\ (fst (dispatch L W s t code tr) = Ok tt -> new = text_events s).
Proof.
  intros Ht.
  assert (dispatch L W s t code = send_text W s) as ->
    by (destruct Ht as [-> | ->]; reflexivity).
  destruct (send_text_prefix s tr) as (new & Hnew & Hpre).
  exists new. split; [done|]. split; [done|].
  intros Hok. apply (app_inv_head tr). rewrite <- Hnew. by apply send_text_done.
Qed.

End Faults.

Lemma text_is_sent_in_order_witness :
  exists new,
    dispatch sample_lib flaky_world (repeat 97%N 4200) (lit "rejection") None []
    = (Raise HTTPException, [] ++ new)
    /\ new = [EReply (repeat 97%N 1990) true None; ESleep;
              EReply (repeat 97%N 1990) false None]
    /\ new `prefix_of` text_events (repeat 97%N 4200).
Proof.
  destruct (text_is_sent_in_order sample_lib flaky_world (repeat 97%N 4200)
              (lit "rejection") None [] (or_intror eq_refl))
    as (new & Hnew & Hpre & _).
  exists new.
  assert (dispatch sample_lib flaky_world (repeat 97%N 4200) (lit "rejection") None []
          = (Raise HTTPException,
             [EReply (repeat 97%N 1990) true None; ESleep;
              EReply (repeat 97%N 1990) false None])) as Hrun
    by (vm_compute; reflexivity).
  rewrite Hrun in Hnew. cbn [snd app] in Hnew. subst new.
  split; [exact Hrun|]. split; [reflexivity|exact Hpre].
Defined.

(* --------------------------------------------------------------------- *)
(** ** Running the code, further *)
(* --------------------------------------------------------------------- *)

(** X22.  What this code makes of the outcome of the Jishaku command, once the
    command is there.  When the invocation returns, or raises a
    [CommandError], nothing more is sent: a command error is left to
    Jishaku to report.  Any other exception is reported once, in the
    channel. *)
Theorem invoke_failure_reporting (W : world) (code : str) (tr : trace) :
  jishaku_ready W ->
  (discord_fault W tr (EInvoke code) = None
   \/ discord_fault W tr (EInvoke code) = Some CommandError ->
   execute_code W code tr = (Ok tt, tr ++ [EInvoke code]))
  /\ (forall e, discord_fault W tr (EInvoke code) = Some e -> e <> CommandError ->
                 snd (execute_code W code tr)
                 = tr ++ [EInvoke code; ESend (notice_setup_error W e)]).
Proof.
  intros (H1 & H2 & H3). unfold execute_code. rewrite H1, H2, H3. cbn [negb].
  unfold try_except, emit. split.
  - intros [-> | ->]; reflexivity.
  - intros e -> Hne. unfold notice_setup_error.
    destruct e; try done;
      match goal with
      | |- context [discord_fault W ?t ?ev] =>
          destruct (discord_fault W t ev); cbn; by rewrite <- app_assoc
      end.
Qed.

Lemma invoke_failure_reporting_witness :
  jishaku_ready flaky_world
  /\ snd (execute_code flaky_world (lit "await ctx.send(1)")
            [ETyping; EReply (lit "On it.") false None])
     = [ETyping; EReply (lit "On it.") false None;
        EInvoke (lit "await ctx.send(1)");
        ESend (lit "_(Error during code execution setup: error)_")].
Proof.
  assert (jishaku_ready flaky_world) as H by (by repeat split).
  split; [exact H|].
  rewrite (proj2 (invoke_failure_reporting flaky_world (lit "await ctx.send(1)")
                    [ETyping; EReply (lit "On it.") false None] H)
             HTTPException eq_refl ltac:(discriminate)).
  vm_compute. reflexivity.
Defined.

(** X23.  The dispatch of a payload that [call_ai_api] returned takes one of
    three ways: the text way for the types [text] and [rejection], the
    audio way, or the code way with a code that is not blank.  The answer
    kept for an unknown type (line 582) and the notice kept for a missing
    code (line 527) are never reached. *)
Theorem validated_payload_dispatch (L : pylib) (W : world) (template msg : str)
    (info : dict) (tr tr' : trace) (d : dict) :
  call_ai_api L W template msg info tr = (Ok (Some d), tr') ->
  exists r t c,
    field_str d (lit "response") (lit "I seem to be speechless.") = Ok r
    /\ field_str d (lit "type") (lit "text") = Ok t
    /\ field_code d = Ok c
    /\ (((t = lit "text" \/ t = lit "rejection") /\ dispatch L W r t c = send_text W r)
        \/ (t = lit "audio" /\ dispatch L W r t c = send_audio L W r)
        \/ (t = lit "code"
            /\ exists x code, c = Some (x :: code) /\ str_strip (x :: code) <> []
               /\ dispatch L W r t c
                  = (lift (clean_code (x :: code)) ≫= fun cleaned =>
                       match cleaned with
                       | [] => reply W (notice_empty_code r)
                       | _ :: _ => reply W r ≫= fun _ => execute_code W cleaned
                       end))).
Proof.
  rewrite call_ai_api_run. intros [= Hd _].
  pose proof (completion_result_shape L _ d Hd) as Hshape. clear Hd.
  destruct (payload_shape_fields d (lit "I seem to be speechless.")
              (lit "No feedback provided.") (lit "text") Hshape)
    as (r & f & t & c & Hr & _ & Ht & Hc & Hin & Hcode & Hnocode).
  exists r, t, c. split; [done|]. split; [done|]. split; [done|].
  unfold response_tags in Hin. set_unfold in Hin.
  destruct Hin as [-> | [-> | [-> | [-> | []]]]].
  - left. by split; [left|].
  - right. right. split; [done|].
    destruct (Hcode eq_refl) as (code & -> & Hs).
    destruct code as [|x code]; [done|]. by exists x, code.
  - right. left. by split.
  - left. by split; [right|].
Qed.

Lemma validated_payload_dispatch_witness :
  exists d tr',
    call_ai_api sample_lib (answering "A") sample_template (lit "say hi") ∅ []
    = (Ok (Some d), tr')
    /\ exists r t c,
         field_str d (lit "response") (lit "I seem to be speechless.") = Ok r
         /\ field_str d (lit "type") (lit "text") = Ok t
         /\ field_code d = Ok c.
Proof.
  assert (call_ai_api sample_lib (answering "A") sample_template (lit "say hi") ∅ []
          = (Ok (Some (list_to_map [ (lit "response", JStr (lit "hi"));
                                     (lit "feedback", JStr (lit "ok"));
                                     (lit "type", JStr (lit "text")) ])),
             [EPost AI_TEXT_API_URL
                (request_payload sample_lib sample_template (lit "say hi") ∅)]))
    as Hrun by (vm_compute; reflexivity).
  eexists _, _. split; [exact Hrun|].
  destruct (validated_payload_dispatch _ _ _ _ _ _ _ _ Hrun)
    as (r & t & c & Hr & Ht & Hc & _).
  exists r, t, c. split; [exact Hr|]. split; [exact Ht|exact Hc].
Defined.

(* --------------------------------------------------------------------- *)
(** ** Permissions in the snapshot *)
(* --------------------------------------------------------------------- *)

Lemma listed_granted (name : str) (perms : Permissions) :
  listed name (Some (granted perms)) <-> (name, true) ∈ perms.
Proof.
  unfold listed, granted. split.
  - intros (items & [= <-] & Hin). apply list_elem_of_fmap in Hin as ([n v] & [= ->] & Hin).
    apply list_elem_of_filter in Hin as [Hv Hin]. cbn in Hv. by subst v.
  - intros Hin. eexists. split; [done|]. apply list_elem_of_fmap.
    exists (name, true). split; [done|]. by apply list_elem_of_filter.
Qed.

(** X24.  The four permission lists of the snapshot name the permissions that
    are granted, and only those: a flag whose value is false is never
    listed.  The channel lists are those of the channel of the message,
    for the member and for the bot. *)
Theorem snapshot_lists_granted_only (m : Member) (g : Guild) (b : bool)
    (pf : Member -> Permissions) (name : str) :
  let info := get_user_info (AMember m (Some g) b) (GuildChannel pf) in
  (listed name (info !! lit "userChannelPermissions") <-> (name, true) ∈ pf m)
  /\ (listed name (info !! lit "userGuildPermissions")
      <-> (name, true) ∈ guild_permissions m)
  /\ (listed name (info !! lit "botChannelPermissions") <-> (name, true) ∈ pf (me g))
  /\ (listed name (info !! lit "botGuildPermissions")
      <-> (name, true) ∈ guild_permissions (me g)).
Proof.
  cbv zeta.
  assert (get_user_info (AMember m (Some g) b) (GuildChannel pf)
            !! lit "userChannelPermissions" = Some (granted (pf m))) as ->
    by snapshot_lookup.
  assert (get_user_info (AMember m (Some g) b) (GuildChannel pf)
            !! lit "userGuildPermissions" = Some (granted (guild_permissions m))) as ->
    by snapshot_lookup.
  assert (get_user_info (AMember m (Some g) b) (GuildChannel pf)
            !! lit "botChannelPermissions" = Some (granted (pf (me g)))) as ->
    by snapshot_lookup.
  assert (get_user_info (AMember m (Some g) b) (GuildChannel pf)
            !! lit "botGuildPermissions" = Some (granted (guild_permissions (me g))))
    as -> by snapshot_lookup.
  repeat split; apply listed_granted.
Qed.

(* --------------------------------------------------------------------- *)
(** ** A request that succeeds *)
(* --------------------------------------------------------------------- *)

(** X25.  From the message to the answer.  A member of the guild addresses the
    bot in a channel of the guild, the completion call returns a payload
    of type [text] or [rejection], and Discord accepts what is sent: the
    handler shows the typing indicator, makes the one call, and sends the
    [response] of the payload, whole or in parts, and nothing else. *)
Theorem text_payload_is_replied (L : pylib) (W : world) (template : str)
    (message : Message) (g g' : Guild) (pf : Member -> Permissions) (m : Member)
    (b : bool) (tr : trace) (d : dict) (t r : str) :
  from_bot W message = false -> is_addressed L W message = true ->
  guild message = Some g -> channel message = GuildChannel pf ->
  request_text W message <> [] ->
  author message = AMember m (Some g') b ->
  no_faults W ->
  completion_result L
    (session_post W (tr ++ [ETyping]) AI_TEXT_API_URL
       (request_payload L template (request_text W message)
          (get_user_info (author message) (channel message)))) = Some d ->
  d !! lit "type" = Some (JStr t) -> t = lit "text" \/ t = lit "rejection" ->
  d !! lit "response" = Some (JStr r) ->
  on_message L W template message tr
  = (Ok tt,
     tr ++ [ETyping;
            EPost AI_TEXT_API_URL
              (request_payload L template (request_text W message)
                 (get_user_info (author message) (channel message)))]
        ++ text_events r).
Proof.
  intros Hbot Haddr Hg Hc Htext Hauthor Hok Hd Ht Htag Hr.
  rewrite (on_message_request L W template message g pf Hbot Haddr Hg Hc Htext).
  rewrite Hauthor in *. rewrite Hc in *. unfold resolve_author.
  unfold mbind at 1. unfold IO_bind, mret, IO_ret.
  unfold mbind at 1. unfold IO_bind. rewrite (emit_ok W Hok).
  unfold process_request. rewrite snapshot_truthy.
  unfold mbind at 1. unfold IO_bind. rewrite call_ai_api_run, Hd.
  pose proof (completion_result_shape L _ d Hd) as Hshape.
  rewrite (payload_shape_truthy d Hshape).
  destruct (payload_shape_fields d (lit "I seem to be speechless.")
              (lit "No feedback provided.") (lit "text") Hshape)
    as (r' & f & t' & c & Hr' & Hf & Ht' & Hcode & _).
  unfold mbind, IO_bind, lift. rewrite Hr', Hf, Ht', Hcode.
  unfold field_str in Hr', Ht'. rewrite Hr in Hr'. rewrite Ht in Ht'.
  injection Hr' as <-. injection Ht' as <-.
  assert (dispatch L W r t c = send_text W r) as ->
    by (destruct Htag as [-> | ->]; reflexivity).
  unfold try_except, text_events.
  destruct (Z.gtb_spec (len r) 2000).
  - rewrite (send_text_long W Hok) by lia. by rewrite <- !app_assoc.
  - rewrite (send_text_short W Hok) by lia. by rewrite <- !app_assoc.
Qed.

Lemma text_payload_is_replied_witness :
  no_faults (answering "A")
  /\ on_message sample_lib (answering "A") sample_template
       (guild_message (lit "Metarunx, say hi")) []
     = (Ok tt,
        [ETyping;
         EPost AI_TEXT_API_URL
           (request_payload sample_lib sample_template (lit "say hi")
              (get_user_info (AMember sample_member (Some sample_guild) false)
                 sample_channel));
         EReply (lit "hi") false None]).
Proof.
  split; [apply quiet_world_no_faults|].
  refine (text_payload_is_replied sample_lib (answering "A") sample_template
            (guild_message (lit "Metarunx, say hi")) sample_guild sample_guild
            (fun m => guild_permissions m) sample_member false []
            (list_to_map [ (lit "response", JStr (lit "hi"));
                           (lit "feedback", JStr (lit "ok"));
                           (lit "type", JStr (lit "text")) ])
            (lit "text") (lit "hi")
            eq_refl eq_refl eq_refl eq_refl _ eq_refl (quiet_world_no_faults _ _)
            _ _ (or_introl eq_refl) _).
  - vm_compute. discriminate.
  - vm_compute. reflexivity.
  - vm_compute. reflexivity.
  - vm_compute. reflexivity.
Defined.
